(** * Gemini file-search demo: the request handlers of [main.py]

    A shallow embedding of the server side of [main.py]: the two
    module-level globals ([client], [file_search_store]), the
    [GEMINI_API_KEY] environment variable, the flat [uploads] directory,
    the wall clock, and the handlers that read and write them
    ([set_api_key], [upload_files], [list_files], [chat]) with their two
    helpers ([get_client], [get_file_search_store]).

    The hosted service, the client library and the clock are outside the
    program.  They are represented by an [External] record of answer
    functions; every theorem quantifies over it, so nothing is assumed
    about what the service replies beyond what a theorem states. *)

From Stdlib Require Import Strings.Byte Strings.Ascii.
From stdpp Require Import gmap strings list fin_maps pretty.

Local Open Scope string_scope.

(** ** Values exchanged with the client library *)

(** [genai.Client(api_key=...)]: an opaque object built from a key. *)
Record Client := { api_key : string }.

(** The object returned by [file_search_stores.create]; only its
    server-assigned [name] is read by the program. *)
Record Store := { name : string }.

(** A long-running ingestion operation; the program reads [done]. *)
Record Operation := { op_name : string; done : bool }.

(** One multipart part of [List[UploadFile]]: [file.filename] and the
    bytes that [await file.read()] yields. *)
Record UploadFile := { filename : string; body : list byte }.

(** Requests sent to the hosted service, with the arguments the code
    passes. *)
Inductive Call :=
| CreateStore (c : Client) (display_name : string)
| UploadToStore (c : Client) (file : string) (file_search_store_name : string)
    (display_name : string)
| OperationsGet (c : Client) (operation : Operation)
| GenerateContent (c : Client) (model : string) (contents : string)
    (file_search_store_names : list string).

(** Everything the program consults but does not define.  An answer
    [inl msg] stands for the library raising an exception [e] with
    [str(e) = msg].  Answers may depend on the requests made so far
    (newest first) and on the time of the request. *)
Record External := {
  (* [genai.Client(api_key=k)]: [Some msg] when construction raises *)
  client_error : string → option string;
  create_answer : list Call → N → Client → string + Store;
  upload_answer : list Call → N → Client → string → string → string →
                  string + Operation;
  get_answer : list Call → N → Client → Operation → string + Operation;
  generate_answer : list Call → N → Client → string → string → list string →
                    string + string;
  (* time units a request takes before its answer is back *)
  latency : list Call → N → Call → N;
  (* [open(path, "wb")] on a path that leaves the upload directory *)
  elsewhere_error : string → option string;
  (* [time.ctime] *)
  ctime : N → string
}.

(** ** Process state *)

(** A regular file of the upload directory. *)
Record LocalFile := { content : list byte; st_mtime : N }.

Record World := {
  environ : option string;            (* os.environ.get("GEMINI_API_KEY") *)
  client : option Client;             (* global [client] *)
  file_search_store : option Store;   (* global [file_search_store] *)
  uploads : gmap string LocalFile;    (* regular files directly in UPLOAD_DIR *)
  clock : N;                          (* time.time() *)
  calls : list Call                   (* requests sent so far, newest first *)
}.

Definition set_environ (v : option string) (w : World) : World :=
  {| environ := v; client := client w; file_search_store := file_search_store w;
     uploads := uploads w; clock := clock w; calls := calls w |}.
Definition set_client (v : option Client) (w : World) : World :=
  {| environ := environ w; client := v; file_search_store := file_search_store w;
     uploads := uploads w; clock := clock w; calls := calls w |}.
Definition set_file_search_store (v : option Store) (w : World) : World :=
  {| environ := environ w; client := client w; file_search_store := v;
     uploads := uploads w; clock := clock w; calls := calls w |}.
Definition set_uploads (v : gmap string LocalFile) (w : World) : World :=
  {| environ := environ w; client := client w; file_search_store := file_search_store w;
     uploads := v; clock := clock w; calls := calls w |}.
Definition set_clock (v : N) (w : World) : World :=
  {| environ := environ w; client := client w; file_search_store := file_search_store w;
     uploads := uploads w; clock := v; calls := calls w |}.
Definition set_calls (v : list Call) (w : World) : World :=
  {| environ := environ w; client := client w; file_search_store := file_search_store w;
     uploads := uploads w; clock := clock w; calls := v |}.

(** ** Exceptions and the handler monad *)

(** [HTTPException(status_code, detail)] is told apart from every other
    exception, of which only [str(e)] is ever used. *)
Inductive exn :=
| HTTPException (status_code : nat) (detail : string)
| Exception (msg : string).

Inductive result (A : Type) :=
| Ok (a : A)
| Raise (e : exn).
Arguments Ok {A} a.
Arguments Raise {A} e.

(** State is threaded through exceptions: a raise keeps every effect made
    before it. *)
Definition M (A : Type) : Type := World → result A * World.

Definition ret {A} (a : A) : M A := fun w => (Ok a, w).
Definition raise {A} (e : exn) : M A := fun w => (Raise e, w).
Definition bind {A B} (m : M A) (k : A → M B) : M B :=
  fun w => match m w with
           | (Ok a, w') => k a w'
           | (Raise e, w') => (Raise e, w')
           end.
Definition gets {A} (f : World → A) : M A := fun w => (Ok (f w), w).
Definition modify (f : World → World) : M unit := fun w => (Ok tt, f w).

Notation "x <- m ;; k" := (bind m (fun x => k))
  (at level 100, m at next level, right associativity).
Notation "m ;;; k" := (bind m (fun _ => k))
  (at level 100, right associativity).

(** [try: m except HTTPException: raise except Exception as e:
    raise HTTPException(status_code=code, detail=str(e))] *)
Definition reraise_as (code : nat) {A} (m : M A) : M A :=
  fun w => match m w with
           | (Raise (Exception msg), w') => (Raise (HTTPException code msg), w')
           | r => r
           end.

(** [try: m except Exception as e: raise HTTPException(code, str(e))].
    This clause also catches an [HTTPException], whose [str] is
    ["{status_code}: {detail}"]. *)
Definition catch_all (code : nat) {A} (m : M A) : M A :=
  fun w => match m w with
           | (Raise (Exception msg), w') => (Raise (HTTPException code msg), w')
           | (Raise (HTTPException s d), w') =>
               (Raise (HTTPException code (pretty s ++ ": " ++ d)), w')
           | r => r
           end.

(** ** JSON bodies *)

Inductive JValue :=
| JStr (s : string)
| JNum (n : nat).

(** A JSON object, as the dict literal the handler builds. *)
Definition JSON : Type := list (string * JValue).

(** ** Paths under [UPLOAD_DIR = Path("uploads")] *)

Fixpoint has_nul (s : string) : bool :=
  match s with
  | EmptyString => false
  | String c s' => Ascii.eqb c Ascii.zero || has_nul s'
  end.

Definition is_absolute (s : string) : bool :=
  match s with
  | String c _ => Ascii.eqb c "/"%char
  | EmptyString => false
  end.

Fixpoint split_slash (s : string) : list string :=
  match s with
  | EmptyString => [""]
  | String c s' =>
      if Ascii.eqb c "/"%char then "" :: split_slash s'
      else match split_slash s' with
           | x :: xs => String c x :: xs
           | [] => [String c ""]
           end
  end.

(** The components pathlib keeps when it parses a relative path: empty
    ones and ["."] are dropped. *)
Definition path_parts (s : string) : list string :=
  List.filter (fun c => negb (String.eqb c "") && negb (String.eqb c "."))
              (split_slash s).

(** pathlib keeps a root of exactly two slashes and folds any other
    run of leading slashes into one. *)
Definition root_of (s : string) : string :=
  match s with
  | String a (String b rest) =>
      if Ascii.eqb a "/"%char && Ascii.eqb b "/"%char && negb (is_absolute rest)
      then "//" else "/"
  | _ => "/"
  end.

(** [str(UPLOAD_DIR / filename)] *)
Definition path_str (filename : string) : string :=
  if is_absolute filename
  then root_of filename ++ String.concat "/" (path_parts filename)
  else "uploads" ++ String.concat "" (List.map (String.append "/") (path_parts filename)).

(** The longest name a directory entry can have (NAME_MAX, in bytes). *)
Definition name_max : nat := 255.

(** Where [open(UPLOAD_DIR / filename, "wb")] lands.  The directory is
    flat (the program never makes a subdirectory), so a path that goes
    through a leading component other than [".."] cannot be opened:
    that component is missing or is a regular file.  An absolute path,
    or one that starts with [".."], leaves the directory and is not
    followed further. *)
Inductive Target :=
| InDir (entry : string)
| Elsewhere (path : string)
| Unwritable (msg : string)
| Through (entry : string) (path : string).

Definition quoted (path : string) : string := "'" ++ path ++ "'".

Definition resolve (filename : string) : Target :=
  if has_nul filename then Unwritable "embedded null byte"
  else if is_absolute filename then Elsewhere (path_str filename)
  else match path_parts filename with
       | [] => Unwritable ("[Errno 21] Is a directory: " ++ quoted (path_str filename))
       | c :: rest =>
           if String.eqb c ".." then
             match rest with
             | [] => Unwritable ("[Errno 21] Is a directory: " ++ quoted (path_str filename))
             | _ => Elsewhere (path_str filename)
             end
           else if Nat.ltb name_max (String.length c) then
             Unwritable ("[Errno 36] File name too long: " ++ quoted (path_str filename))
           else
             match rest with
             | [] => InDir c
             | _ => Through c (path_str filename)
             end
       end.

(** A file name that is one path component: what a browser sends. *)
Definition plain (filename : string) : Prop := resolve filename = InDir filename.

Global Instance plain_dec filename : Decision (plain filename).
Proof.
  unfold plain. destruct (resolve filename) as [c | p | m | c p].
  - destruct (decide (c = filename)) as [-> | Hne]; [left; reflexivity |].
    right; congruence.
  - right; discriminate.
  - right; discriminate.
  - right; discriminate.
Defined.

(** [timeout = 60] and the [time.sleep(2)] of the wait loop. *)
Definition timeout : N := 60.
Definition poll_interval : N := 2.

(** Passes through the head of the wait loop after which the deadline is
    behind for sure: the 32nd comes after 31 sleeps, and [2 * 31 > 60]. *)
Definition max_polls : nat := 32.

Section Handlers.

Variable ext : External.

(** *** Primitive effects *)

Definition time_time : M N := gets clock.

Definition time_sleep (secs : N) : M unit :=
  modify (fun w => set_clock (clock w + secs)%N w).

(** A request to the hosted service: it is recorded, takes its latency,
    and either answers or raises. *)
Definition request {A} (call : Call) (answer : list Call → N → string + A) : M A :=
  fun w =>
    let w' := set_calls (call :: calls w)
                (set_clock (clock w + latency ext (calls w) (clock w) call)%N w) in
    match answer (calls w) (clock w) with
    | inl msg => (Raise (Exception msg), w')
    | inr a => (Ok a, w')
    end.

(** [genai.Client(api_key=k)] *)
Definition genai_Client (k : string) : M Client :=
  match client_error ext k with
  | Some msg => raise (Exception msg)
  | None => ret {| api_key := k |}
  end.

(** [os.environ["GEMINI_API_KEY"] = k]; a value with a NUL byte is
    refused with [ValueError]. *)
Definition environ_set (k : string) : M unit :=
  if has_nul k then raise (Exception "embedded null byte")
  else modify (set_environ (Some k)).

(** [with open(file_path, "wb") as f: f.write(await file.read())] *)
Definition save_locally (file : UploadFile) : M unit :=
  fun w =>
    match resolve (filename file) with
    | InDir c =>
        (Ok tt, set_uploads (<[c := {| content := body file; st_mtime := clock w |}]>
                               (uploads w)) w)
    | Elsewhere p =>
        match elsewhere_error ext p with
        | Some msg => (Raise (Exception msg), w)
        | None => (Ok tt, w)
        end
    | Unwritable msg => (Raise (Exception msg), w)
    | Through c p =>
        match uploads w !! c with
        | Some _ => (Raise (Exception ("[Errno 20] Not a directory: " ++ quoted p)), w)
        | None => (Raise (Exception ("[Errno 2] No such file or directory: " ++ quoted p)), w)
        end
    end.

(** *** [get_client] *)

Definition missing_key_detail : string :=
  "GEMINI_API_KEY not set. Please set it via /set-api-key endpoint or environment variable".

Definition get_client : M Client :=
  cached <- gets client ;;
  match cached with
  | Some c => ret c
  | None =>
      key <- gets environ ;;
      match key with
      | None | Some EmptyString =>
          raise (HTTPException 400 missing_key_detail)
      | Some k =>
          c <- genai_Client k ;;
          modify (set_client (Some c)) ;;;
          ret c
      end
  end.

(** *** [get_file_search_store] *)

Definition get_file_search_store : M Store :=
  cached <- gets file_search_store ;;
  match cached with
  | Some s => ret s
  | None =>
      c <- get_client ;;
      s <- request (CreateStore c "demo-file-search-store")
                   (fun log t => create_answer ext log t c) ;;
      modify (set_file_search_store (Some s)) ;;;
      ret s
  end.

(** *** [set_api_key] *)

Definition set_api_key (key : string) : M JSON :=
  catch_all 400
    (modify (set_client None) ;;;
     modify (set_file_search_store None) ;;;
     environ_set key ;;;
     _ <- genai_Client key ;;
     ret [("status", JStr "success"); ("message", JStr "API key set successfully")]).

(** *** [upload_files] *)

(** [while not operation.done: ...], with the number of passes through
    the loop head bounded by [fuel]; [None] is fuel running out.
    [wait_loop_fuel] shows that [max_polls] passes always suffice. *)
Fixpoint wait_loop (fuel : nat) (c : Client) (fname : string) (start_time : N)
    (operation : Operation) (w : World) : option (result Operation * World) :=
  match fuel with
  | O => None
  | S fuel' =>
      if done operation then Some (Ok operation, w)
      else if (timeout <? clock w - start_time)%N
      then Some (Raise (HTTPException 408 ("Timeout importing " ++ fname)), w)
      else
        match (time_sleep poll_interval ;;;
               request (OperationsGet c operation)
                       (fun log t => get_answer ext log t c operation)) w with
        | (Ok operation', w') => wait_loop fuel' c fname start_time operation' w'
        | (Raise e, w') => Some (Raise e, w')
        end
  end.

(** [start_time = time.time()] followed by the loop.  The last branch is
    never taken. *)
Definition wait_for_import (c : Client) (fname : string) (operation : Operation)
    : M Operation :=
  fun w =>
    match wait_loop max_polls c fname (clock w) operation w with
    | Some r => r
    | None => (Raise (Exception "wait_loop: out of fuel"), w)
    end.

(** One pass of [for file in files]. *)
Definition import_file (c : Client) (store : Store) (file : UploadFile) : M unit :=
  save_locally file ;;;
  operation <- request
    (UploadToStore c (path_str (filename file)) (name store) (filename file))
    (fun log t => upload_answer ext log t c (path_str (filename file)) (name store)
                    (filename file)) ;;
  _ <- wait_for_import c (filename file) operation ;;
  ret tt.

Fixpoint upload_loop (c : Client) (store : Store) (files : list UploadFile)
    (uploaded_count : nat) : M nat :=
  match files with
  | [] => ret uploaded_count
  | file :: rest =>
      import_file c store file ;;;
      upload_loop c store rest (uploaded_count + 1)
  end.

Definition upload_files (files : list UploadFile) : M JSON :=
  match files with
  | [] => raise (HTTPException 400 "No files provided")
  | _ =>
      reraise_as 500
        (c <- get_client ;;
         store <- get_file_search_store ;;
         uploaded_count <- upload_loop c store files 0 ;;
         ret [("status", JStr "success");
              ("uploaded", JNum uploaded_count);
              ("message", JStr ("Successfully uploaded " ++ pretty uploaded_count
                                ++ " file(s)"))])
  end.

(** *** [list_files] *)

Definition file_info (entry : string * LocalFile) : JSON :=
  [("filename", JStr entry.1);
   ("size", JNum (length (content entry.2)));
   ("uploaded_at", JStr (ctime ext (st_mtime entry.2)))].

(** The order of [iterdir()] is the file system's; here it is the order
    of [map_to_list]. *)
Definition list_files : M (list JSON) :=
  catch_all 500 (gets (fun w => file_info <$> map_to_list (uploads w))).

(** *** [chat] *)

Definition chat (message : string) : M JSON :=
  reraise_as 500
    (c <- get_client ;;
     store <- get_file_search_store ;;
     text <- request
       (GenerateContent c "gemini-2.5-flash" message [name store])
       (fun log t => generate_answer ext log t c "gemini-2.5-flash" message
                       [name store]) ;;
     ret [("response", JStr text); ("status", JStr "success")]).

End Handlers.

(** ** Sample surroundings, used to run the handlers *)

(** A service that accepts every key, never raises, answers at once, and
    reports an operation done from time [ready_at] on. *)
Definition steady (ready_at : N) : External :=
  {| client_error := fun _ => None;
     create_answer := fun _ _ _ => inr {| name := "fileSearchStores/demo" |};
     upload_answer := fun _ t _ _ _ d =>
       inr {| op_name := d; done := (ready_at <=? t)%N |};
     get_answer := fun _ t _ o =>
       inr {| op_name := op_name o; done := (ready_at <=? t)%N |};
     generate_answer := fun _ _ _ _ _ _ => inr "No information found";
     latency := fun _ _ _ => 0%N;
     elsewhere_error := fun _ => None;
     ctime := pretty |}.

(** The same service behind a client library that refuses the key
    ["bad"] at construction. *)
Definition picky : External :=
  {| client_error := fun k => if String.eqb k "bad" then Some "invalid key" else None;
     create_answer := create_answer (steady 0);
     upload_answer := upload_answer (steady 0);
     get_answer := get_answer (steady 0);
     generate_answer := generate_answer (steady 0);
     latency := latency (steady 0);
     elsewhere_error := elsewhere_error (steady 0);
     ctime := ctime (steady 0) |}.

(** A service on which the ingestion of the file displayed as [fname]
    never completes, while every other one is complete at once. *)
Definition stuck_on (fname : string) : External :=
  {| client_error := client_error (steady 0);
     create_answer := create_answer (steady 0);
     upload_answer := fun _ _ _ _ _ d =>
       inr {| op_name := d; done := negb (String.eqb d fname) |};
     get_answer := fun _ _ _ o =>
       inr {| op_name := op_name o; done := negb (String.eqb (op_name o) fname) |};
     generate_answer := generate_answer (steady 0);
     latency := latency (steady 0);
     elsewhere_error := elsewhere_error (steady 0);
     ctime := ctime (steady 0) |}.

(** A process that has just started, with [key] as the externally
    supplied [GEMINI_API_KEY], and an empty upload directory. *)
Definition fresh (key : option string) : World :=
  {| environ := key; client := None; file_search_store := None;
     uploads := ∅; clock := 0; calls := [] |}.

Definition a_txt : UploadFile := {| filename := "a.txt"; body := [x61; x62] |}.
Definition b_txt : UploadFile := {| filename := "b.txt"; body := [x62] |}.
Definition c_txt : UploadFile := {| filename := "c.txt"; body := [x63; x63; x63] |}.

(** ** Reading the request log *)

Definition is_create (call : Call) : bool :=
  match call with CreateStore _ _ => true | _ => false end.

Definition is_get (call : Call) : bool :=
  match call with OperationsGet _ _ => true | _ => false end.

(** How many index creations have been requested. *)
Definition creations (log : list Call) : nat := length (List.filter is_create log).

(** [L] has an entry for file [n] with size [k]. *)
Definition listed (L : list JSON) (n : string) (k : nat) : Prop :=
  ∃ t, [("filename", JStr n); ("size", JNum k); ("uploaded_at", JStr t)] ∈ L.

(** ** Sequences of requests *)

Inductive Request :=
| PostSetApiKey (key : string)
| PostUpload (files : list UploadFile)
| GetFiles
| PostChat (message : string).

Definition is_set_api_key (r : Request) : bool :=
  match r with PostSetApiKey _ => true | _ => false end.

(** The world after one request has been answered. *)
Definition handle (ext : External) (r : Request) (w : World) : World :=
  match r with
  | PostSetApiKey key => (set_api_key ext key w).2
  | PostUpload files => (upload_files ext files w).2
  | GetFiles => (list_files ext w).2
  | PostChat message => (chat ext message w).2
  end.

Definition serve (ext : External) (rs : list Request) (w : World) : World :=
  foldl (fun w r => handle ext r w) w rs.

(** Every file of the list, in turn, is saved, submitted, and seen done
    by its wait loop: the passes of [for file in files] all reach
    [uploaded_count += 1], taking the world from [w] to [w']. *)
Inductive ingests (ext : External) (c : Client) (s : Store)
    : list UploadFile → World → World → Prop :=
| ingests_nil w : ingests ext c s [] w w
| ingests_cons file rest w w1 w2 :
    import_file ext c s file w = (Ok tt, w1) →
    ingests ext c s rest w1 w2 →
    ingests ext c s (file :: rest) w w2.

Definition chat_model : string := "gemini-2.5-flash".

(** ** The wait, as the specification describes it *)

(** The world after one round of the wait: a sleep of [poll_interval],
    then a status fetch for [operation], recorded in the log, whose
    answer takes its latency to come back. *)
Definition polled (ext : External) (c : Client) (operation : Operation) (w : World)
    : World :=
  let t := (clock w + poll_interval)%N in
  let call := OperationsGet c operation in
  set_calls (call :: calls w) (set_clock (t + latency ext (calls w) t call)%N w).

(** Steps 3 and 4 of the upload, read as a relation: [polling n
    operation w r w'] says that the wait on [operation], begun at time
    [start] and now in world [w], ends with [r] in [w'] after [n] rounds.
    - The completion flag is looked at first: when it is true the wait
      ends in success with that status, at once.
    - Otherwise, when more than [timeout] has passed since [start], the
      wait ends with the 408 that names the file.
    - Otherwise there is a round: after the sleep the status of the
      operation in hand is fetched afresh, at the time the sleep ends; an
      exception from the fetch ends the wait, and an answer becomes the
      operation in hand for the rest of the wait. *)
Inductive polling (ext : External) (c : Client) (fname : string) (start : N)
    : nat → Operation → World → result Operation → World → Prop :=
| polling_done operation w :
    done operation = true →
    polling ext c fname start 0 operation w (Ok operation) w
| polling_timeout operation w :
    done operation = false →
    (timeout < clock w - start)%N →
    polling ext c fname start 0 operation w
      (Raise (HTTPException 408 ("Timeout importing " ++ fname))) w
| polling_raise operation w msg :
    done operation = false →
    (clock w - start ≤ timeout)%N →
    get_answer ext (calls w) (clock w + poll_interval)%N c operation = inl msg →
    polling ext c fname start 1 operation w
      (Raise (Exception msg)) (polled ext c operation w)
| polling_again n operation operation' w r w' :
    done operation = false →
    (clock w - start ≤ timeout)%N →
    get_answer ext (calls w) (clock w + poll_interval)%N c operation = inr operation' →
    polling ext c fname start n operation' (polled ext c operation w) r w' →
    polling ext c fname start (S n) operation w r w'.

(** ** What a run leaves behind *)

(** What a run of the loop leaves behind: only the clock and the request
    log move; every request added is a status fetch, there are at most
    [budget] of them, each after a sleep of [poll_interval]; and the run
    ends in one of three ways.  Every fetch is requested no later than
    [timeout + poll_interval] after [start]. *)
Record waited (ext : External) (c : Client) (fname : string) (start : N) (budget : nat)
    (operation : Operation) (w : World) (r : result Operation) (w' : World) : Prop := {
  waited_environ : environ w' = environ w;
  waited_client : client w' = client w;
  waited_store : file_search_store w' = file_search_store w;
  waited_uploads : uploads w' = uploads w;
  waited_polls : ∃ polls : list Call, calls w' = (polls ++ calls w)%list ∧
                          forallb is_get polls = true ∧
                          (length polls ≤ budget)%nat ∧
                          (clock w + poll_interval * N.of_nat (length polls) ≤ clock w')%N;
  waited_outcome :
    match r with
    | Ok operation' =>
        (* the flag was seen true, on the operation as submitted or as
           last fetched *)
        done operation' = true ∧
        (operation' = operation ∨
         ∃ log t o, (t ≤ start + timeout + poll_interval)%N ∧
                    get_answer ext log t c o = inr operation')
    | Raise (HTTPException code detail) =>
        (* the deadline check fired *)
        code = 408 ∧ detail = "Timeout importing " ++ fname ∧
        (timeout < clock w' - start)%N
    | Raise (Exception msg) =>
        (* a status fetch raised *)
        ∃ log t o, (t ≤ start + timeout + poll_interval)%N ∧
                   get_answer ext log t c o = inl msg
    end
}.

(** The key, the cached client and index are as before, and no index
    creation was requested in between. *)
Record kept (w w' : World) : Prop := {
  kept_environ : environ w' = environ w;
  kept_client : client w' = client w;
  kept_store : file_search_store w' = file_search_store w;
  kept_creations : creations (calls w') = creations (calls w)
}.

(** ** More surroundings and readings of the state *)

(** A service whose index creation always fails. *)
Definition down : External :=
  {| client_error := client_error (steady 0);
     create_answer := fun _ _ _ => inl "503 UNAVAILABLE";
     upload_answer := upload_answer (steady 0);
     get_answer := get_answer (steady 0);
     generate_answer := generate_answer (steady 0);
     latency := latency (steady 0);
     elsewhere_error := elsewhere_error (steady 0);
     ctime := ctime (steady 0) |}.

(** A service that refuses the submission displayed as [fname] and
    completes every other one at once. *)
Definition refuses (fname : string) : External :=
  {| client_error := client_error (steady 0);
     create_answer := create_answer (steady 0);
     upload_answer := fun _ _ _ _ _ d =>
       if String.eqb d fname then inl "400 INVALID_ARGUMENT"
       else inr {| op_name := d; done := true |};
     get_answer := get_answer (steady 0);
     generate_answer := generate_answer (steady 0);
     latency := latency (steady 0);
     elsewhere_error := elsewhere_error (steady 0);
     ctime := ctime (steady 0) |}.

(** A string of [n] letters. *)
Fixpoint unary (n : nat) : string :=
  match n with
  | O => EmptyString
  | S n' => String "x"%char (unary n')
  end.

(** The time at which an operation of the service [paced] is complete:
    the service writes it, in unary, into the name it gives the
    operation. *)
Definition due_of (o : Operation) : N := N.of_nat (String.length (op_name o)).

(** A service on which every operation takes [delay] time units from its
    submission, and answers come at once. *)
Definition paced (delay : N) : External :=
  {| client_error := client_error (steady 0);
     create_answer := create_answer (steady 0);
     upload_answer := fun _ t _ _ _ _ =>
       inr {| op_name := unary (N.to_nat (t + delay)); done := false |};
     get_answer := fun _ t _ o =>
       inr {| op_name := op_name o; done := (due_of o <=? t)%N |};
     generate_answer := generate_answer (steady 0);
     latency := latency (steady 0);
     elsewhere_error := elsewhere_error (steady 0);
     ctime := ctime (steady 0) |}.

(** A service on which an operation is complete from time 55 on, and
    every status fetch takes 11 time units to come back. *)
Definition sluggish : External :=
  {| client_error := client_error (steady 55);
     create_answer := create_answer (steady 55);
     upload_answer := upload_answer (steady 55);
     get_answer := get_answer (steady 55);
     generate_answer := generate_answer (steady 55);
     latency := fun _ _ call =>
       match call with OperationsGet _ _ => 11%N | _ => 0%N end;
     elsewhere_error := elsewhere_error (steady 55);
     ctime := ctime (steady 55) |}.

(** The part of a pass of [for file in files] that follows the local
    write: the submission and the wait. *)
Definition submit_and_wait (ext : External) (c : Client) (s : Store) (file : UploadFile)
    : M unit :=
  operation <- request ext
    (UploadToStore c (path_str (filename file)) (name s) (filename file))
    (fun log t => upload_answer ext log t c (path_str (filename file)) (name s)
                    (filename file)) ;;
  _ <- wait_for_import ext c (filename file) operation ;;
  ret tt.

(** The display names of the submissions in a request log, oldest
    first. *)
Definition display_of (call : Call) : option string :=
  match call with
  | UploadToStore _ _ _ d => Some d
  | _ => None
  end.

Definition submitted (log : list Call) : list string :=
  reverse (omap display_of log).

(** The globals agree with each other: a cached client was built from
    the key now stored, which is not empty, and an index is cached only
    together with a client. *)
Definition coherent (w : World) : Prop :=
  (∀ c, client w = Some c → environ w = Some (api_key c) ∧ api_key c ≠ "") ∧
  (∀ s, file_search_store w = Some s → ∃ c, client w = Some c).

(** The only [HTTPException] the two helpers raise is the 400 "not set"
    error. *)
Definition only_missing_key {A} (r : result A) : Prop :=
  match r with
  | Raise (HTTPException code detail) => code = 400 ∧ detail = missing_key_detail
  | _ => True
  end.

(** No file has left the upload directory. *)
Definition grows (w w' : World) : Prop := dom (uploads w) ⊆ dom (uploads w').

(** ** Upload with no files *)

(** C3. [upload_files] on an empty list raises [HTTPException 400
    "No files provided"] and returns the world it was given: the upload
    directory, the stored key, the cached client and index, the clock and
    the request log are all as before. *)
Theorem upload_files_empty (ext : External) (w : World) :
  upload_files ext [] w = (Raise (HTTPException 400 "No files provided"), w).
Proof. reflexivity. Qed.

(** ** Setting the key *)

Lemma set_api_key_world (ext : External) (key : string) (w : World) :
  (set_api_key ext key w).2 =
    let w0 := set_file_search_store None (set_client None w) in
    if has_nul key then w0 else set_environ (Some key) w0.
Proof.
  unfold set_api_key, catch_all, bind, modify, environ_set, genai_Client.
  simpl. destruct (has_nul key); simpl; [reflexivity |].
  destruct (client_error ext key); reflexivity.
Qed.

Lemma set_api_key_resets (ext : External) (key : string) (w : World) :
  client (set_api_key ext key w).2 = None ∧
  file_search_store (set_api_key ext key w).2 = None ∧
  uploads (set_api_key ext key w).2 = uploads w ∧
  calls (set_api_key ext key w).2 = calls w ∧
  clock (set_api_key ext key w).2 = clock w.
Proof.
  rewrite set_api_key_world. simpl. destruct (has_nul key); repeat split.
Qed.

(** C10. When the key can be stored and [genai.Client] then raises with
    message [msg], [set_api_key] answers 400 with that message and leaves
    the globals reset and the refused key in the environment; what was
    cached before is gone, whatever it was. *)
Theorem set_api_key_failure_keeps_key (ext : External) (key msg : string) (w : World) :
  has_nul key = false →
  client_error ext key = Some msg →
  ∃ w', set_api_key ext key w = (Raise (HTTPException 400 msg), w') ∧
        client w' = None ∧
        file_search_store w' = None ∧
        environ w' = Some key.
Proof.
  intros Hnul Herr.
  unfold set_api_key, catch_all, bind, modify, environ_set, genai_Client.
  simpl. rewrite Hnul. simpl. rewrite Herr. simpl.
  eexists. split; [reflexivity |]. repeat split.
Qed.

(** A process that holds a working client and an index for ["good"] loses
    both when ["bad"] is refused, and keeps ["bad"] as its key. *)
Lemma set_api_key_failure_keeps_key_witness :
  let w := set_file_search_store (Some {| name := "fileSearchStores/old" |})
             (set_client (Some {| api_key := "good" |}) (fresh (Some "good"))) in
  ∃ w', set_api_key picky "bad" w = (Raise (HTTPException 400 "invalid key"), w') ∧
        client w' = None ∧
        file_search_store w' = None ∧
        environ w' = Some "bad".
Proof.
  intros w.
  apply (set_api_key_failure_keeps_key picky "bad" "invalid key" w);
    reflexivity.
Defined.

(** ** The cached client and index *)

Lemma get_client_cached (ext : External) (w : World) (c : Client) :
  client w = Some c → get_client ext w = (Ok c, w).
Proof. intros H. unfold get_client, bind, gets. simpl. rewrite H. reflexivity. Qed.

Lemma get_client_builds (ext : External) (w : World) (k : string) :
  client w = None → environ w = Some k → k ≠ "" → client_error ext k = None →
  get_client ext w = (Ok {| api_key := k |}, set_client (Some {| api_key := k |}) w).
Proof.
  intros Hc He Hk Herr. unfold get_client, bind, gets, genai_Client. simpl.
  rewrite Hc, He. destruct k as [| a k']; [congruence |].
  rewrite Herr. reflexivity.
Qed.

Lemma get_client_refused (ext : External) (w : World) (k msg : string) :
  client w = None → environ w = Some k → k ≠ "" → client_error ext k = Some msg →
  get_client ext w = (Raise (Exception msg), w).
Proof.
  intros Hc He Hk Herr. unfold get_client, bind, gets, genai_Client. simpl.
  rewrite Hc, He. destruct k as [| a k']; [congruence |].
  rewrite Herr. reflexivity.
Qed.

Lemma get_file_search_store_cached (ext : External) (w : World) (s : Store) :
  file_search_store w = Some s → get_file_search_store ext w = (Ok s, w).
Proof.
  intros H. unfold get_file_search_store, bind, gets. simpl. rewrite H. reflexivity.
Qed.

(** With a client at hand and no index cached, one creation request is
    sent and its answer decides the outcome. *)
Lemma get_file_search_store_creates (ext : External) (w : World) (c : Client) :
  client w = Some c → file_search_store w = None →
  get_file_search_store ext w =
    let w' := set_calls (CreateStore c "demo-file-search-store" :: calls w)
                (set_clock (clock w + latency ext (calls w) (clock w)
                                        (CreateStore c "demo-file-search-store"))%N w) in
    match create_answer ext (calls w) (clock w) c with
    | inl msg => (Raise (Exception msg), w')
    | inr s => (Ok s, set_file_search_store (Some s) w')
    end.
Proof.
  intros Hc Hs. unfold get_file_search_store, bind, gets. simpl. rewrite Hs.
  rewrite (get_client_cached ext w c Hc). unfold request. simpl.
  destruct (create_answer ext (calls w) (clock w) c); reflexivity.
Qed.

(** C7. [set_api_key] always leaves [client] and [file_search_store]
    empty, whatever they held and whether or not it succeeds.  When the
    new key is usable (not empty, accepted by [genai.Client]) and the
    service answers the creation request with [s], the next
    [get_file_search_store] sends exactly one creation request, made by a
    client built from the new key, and returns and caches [s]: the handle
    held before is not consulted. *)
Theorem set_api_key_forces_new_store (ext : External) (key : string) (w : World) :
  client (set_api_key ext key w).2 = None ∧
  file_search_store (set_api_key ext key w).2 = None ∧
  ∀ s : Store,
    key ≠ "" →
    has_nul key = false →
    client_error ext key = None →
    create_answer ext (calls w) (clock w) {| api_key := key |} = inr s →
    ∃ w2, get_file_search_store ext (set_api_key ext key w).2 = (Ok s, w2) ∧
          calls w2 = CreateStore {| api_key := key |} "demo-file-search-store" :: calls w ∧
          client w2 = Some {| api_key := key |} ∧
          file_search_store w2 = Some s.
Proof.
  destruct (set_api_key_resets ext key w) as (Hc & Hs & _ & Hcalls & Hclock).
  split; [exact Hc |]. split; [exact Hs |].
  intros s Hk Hnul Herr Hans.
  set (w1 := (set_api_key ext key w).2) in *.
  assert (Henv : environ w1 = Some key).
  { subst w1. rewrite set_api_key_world. simpl. rewrite Hnul. reflexivity. }
  unfold get_file_search_store, bind, gets. simpl. rewrite Hs.
  rewrite (get_client_builds ext w1 key Hc Henv Hk Herr).
  unfold request. simpl. rewrite Hcalls, Hclock, Hans. simpl.
  eexists. split; [reflexivity |]. repeat split.
Qed.

(** A process holding an index made under ["good"] is given the key
    ["new"]: the next lookup asks the service for an index again. *)
Lemma set_api_key_forces_new_store_witness :
  let w := set_file_search_store (Some {| name := "fileSearchStores/old" |})
             (set_client (Some {| api_key := "good" |}) (fresh (Some "good"))) in
  client (set_api_key picky "new" w).2 = None ∧
  file_search_store (set_api_key picky "new" w).2 = None ∧
  ∃ w2, get_file_search_store picky (set_api_key picky "new" w).2
          = (Ok {| name := "fileSearchStores/demo" |}, w2) ∧
        calls w2 = [CreateStore {| api_key := "new" |} "demo-file-search-store"] ∧
        client w2 = Some {| api_key := "new" |} ∧
        file_search_store w2 = Some {| name := "fileSearchStores/demo" |}.
Proof.
  intros w.
  destruct (set_api_key_forces_new_store picky "new" w) as (Hc & Hs & Hnext).
  split; [exact Hc |]. split; [exact Hs |].
  apply (Hnext {| name := "fileSearchStores/demo" |});
    [discriminate | reflexivity | reflexivity | reflexivity].
Defined.

(** ** Asking a question *)

(** Once the client and the index are obtained, [chat] sends the message
    as it is and turns the answer into the response. *)
Lemma chat_sends (ext : External) (message : string) (w w0 w1 : World)
    (c : Client) (s : Store) :
  get_client ext w = (Ok c, w0) →
  get_file_search_store ext w0 = (Ok s, w1) →
  chat ext message w =
    let call := GenerateContent c chat_model message [name s] in
    (match generate_answer ext (calls w1) (clock w1) c chat_model message [name s] with
     | inl msg => Raise (HTTPException 500 msg)
     | inr text => Ok [("response", JStr text); ("status", JStr "success")]
     end,
     set_calls (call :: calls w1)
       (set_clock (clock w1 + latency ext (calls w1) (clock w1) call)%N w1)).
Proof.
  intros Hc Hs. unfold chat, reraise_as, bind. rewrite Hc, Hs.
  unfold request, chat_model. simpl.
  destruct (generate_answer ext (calls w1) (clock w1) c "gemini-2.5-flash" message
              [name s]); reflexivity.
Qed.

(** [chat] never answers with a status other than 200 or 500 once a key
    that is not empty is stored and no client is cached. *)
Lemma chat_with_key_status (ext : External) (message key : string) (w : World) :
  client w = None → environ w = Some key → key ≠ "" →
  (∃ body, (chat ext message w).1 = Ok body) ∨
  (∃ msg, (chat ext message w).1 = Raise (HTTPException 500 msg)).
Proof.
  intros Hc He Hk.
  destruct (client_error ext key) as [msg |] eqn:Herr.
  { right. exists msg. unfold chat, reraise_as, bind.
    rewrite (get_client_refused ext w key msg Hc He Hk Herr). reflexivity. }
  pose proof (get_client_builds ext w key Hc He Hk Herr) as Hgc.
  set (c := {| api_key := key |}) in *.
  set (w0 := set_client (Some c) w) in *.
  destruct (file_search_store w0) as [s |] eqn:Hst.
  - rewrite (chat_sends ext message w w0 w0 c s Hgc
               (get_file_search_store_cached ext w0 s Hst)).
    simpl. destruct (generate_answer _ _ _ _ _ _ _);
      [right | left]; eexists; reflexivity.
  - pose proof (get_file_search_store_creates ext w0 c eq_refl Hst) as Hgs.
    cbv zeta in Hgs. destruct (create_answer ext (calls w0) (clock w0) c) as [msg | s].
    + right. exists msg. unfold chat, reraise_as, bind. rewrite Hgc, Hgs. reflexivity.
    + rewrite (chat_sends ext message w w0 _ c s Hgc Hgs).
      simpl. destruct (generate_answer _ _ _ _ _ _ _);
        [right | left]; eexists; reflexivity.
Qed.

(** C9, as the code has it.  [chat] puts no condition on the message:
    whenever the client and the index are obtained, the message, empty
    or not, is sent to the generation endpoint, and the response is the
    endpoint's answer (200) or its error (500). *)
Theorem chat_forwards_every_message (ext : External) (message : string)
    (w w0 w1 : World) (c : Client) (s : Store) :
  get_client ext w = (Ok c, w0) →
  get_file_search_store ext w0 = (Ok s, w1) →
  calls (chat ext message w).2 = GenerateContent c chat_model message [name s] :: calls w1 ∧
  (chat ext message w).1 =
    match generate_answer ext (calls w1) (clock w1) c chat_model message [name s] with
    | inl msg => Raise (HTTPException 500 msg)
    | inr text => Ok [("response", JStr text); ("status", JStr "success")]
    end.
Proof.
  intros Hc Hs. rewrite (chat_sends ext message w w0 w1 c s Hc Hs). split; reflexivity.
Qed.

Lemma chat_forwards_every_message_witness :
  let w := set_file_search_store (Some {| name := "fileSearchStores/demo" |})
             (set_client (Some {| api_key := "k" |}) (fresh (Some "k"))) in
  calls (chat (steady 0) "" w).2 =
    [GenerateContent {| api_key := "k" |} chat_model "" ["fileSearchStores/demo"]] ∧
  (chat (steady 0) "" w).1 =
    Ok [("response", JStr "No information found"); ("status", JStr "success")].
Proof.
  intros w.
  apply (chat_forwards_every_message (steady 0) "" w w w {| api_key := "k" |}
           {| name := "fileSearchStores/demo" |}); reflexivity.
Defined.

(** C9, as stated, fails: the empty message of a process with a key is
    not rejected, it reaches the generation endpoint and the answer comes
    back with status 200. *)
Lemma chat_empty_message_is_sent :
  (chat (steady 0) "" (fresh (Some "k"))).1 =
    Ok [("response", JStr "No information found"); ("status", JStr "success")] ∧
  calls (chat (steady 0) "" (fresh (Some "k"))).2 =
    [GenerateContent {| api_key := "k" |} "gemini-2.5-flash" "" ["fileSearchStores/demo"];
     CreateStore {| api_key := "k" |} "demo-file-search-store"].
Proof. split; reflexivity. Qed.

(** ** The missing key *)

(** C5, as the code has it.  [get_client] raises the 400 "not set" error
    exactly when no client is cached and the environment variable is
    absent or empty.  After [set_api_key] with a key that is not empty,
    [chat] never answers 400; and when the key is accepted, the index is
    created with answer [s] and the endpoint replies [text], [chat]
    returns [text] with the index now cached, having sent one creation
    request and then the question. *)
Theorem get_client_missing_key_iff (ext : External) :
  (∀ w : World,
     (get_client ext w).1 = Raise (HTTPException 400 missing_key_detail) ↔
     client w = None ∧ (environ w = None ∨ environ w = Some "")) ∧
  (∀ (key message : string) (w : World),
     key ≠ "" →
     has_nul key = false →
     (∀ d, (chat ext message (set_api_key ext key w).2).1 ≠ Raise (HTTPException 400 d)) ∧
     ∀ (s : Store) (text : string),
       let c := {| api_key := key |} in
       let create := CreateStore c "demo-file-search-store" in
       let t := (clock w + latency ext (calls w) (clock w) create)%N in
       client_error ext key = None →
       create_answer ext (calls w) (clock w) c = inr s →
       generate_answer ext (create :: calls w) t c chat_model message [name s] = inr text →
       (chat ext message (set_api_key ext key w).2).1 =
         Ok [("response", JStr text); ("status", JStr "success")] ∧
       file_search_store (chat ext message (set_api_key ext key w).2).2 = Some s ∧
       calls (chat ext message (set_api_key ext key w).2).2 =
         GenerateContent c chat_model message [name s] :: create :: calls w).
Proof.
  split.
  - intros w. unfold get_client, bind, gets, genai_Client. simpl.
    destruct (client w) as [c |]; simpl.
    { split; [discriminate | intros [? _]; discriminate]. }
    destruct (environ w) as [[| a k] |]; simpl.
    + split; [intros _; split; [reflexivity | right; reflexivity] | reflexivity].
    + destruct (client_error ext (String a k)); simpl;
        (split; [discriminate | intros [_ [? | ?]]; discriminate]).
    + split; [intros _; split; [reflexivity | left; reflexivity] | reflexivity].
  - intros key message w Hk Hnul.
    destruct (set_api_key_resets ext key w) as (Hc & Hs & _ & Hcalls & Hclock).
    set (w1 := (set_api_key ext key w).2) in *.
    assert (Henv : environ w1 = Some key).
    { subst w1. rewrite set_api_key_world. simpl. rewrite Hnul. reflexivity. }
    split.
    + intros d Hd.
      destruct (chat_with_key_status ext message key w1 Hc Henv Hk)
        as [[body Hb] | [msg Hm]]; congruence.
    + intros s text c create t Herr Hcreate Hgen.
      pose proof (get_client_builds ext w1 key Hc Henv Hk Herr) as Hgc.
      fold c in Hgc.
      pose proof (get_file_search_store_creates ext (set_client (Some c) w1) c
                    eq_refl Hs) as Hgs.
      cbv zeta in Hgs. simpl in Hgs. rewrite Hcalls, Hclock in Hgs.
      fold create in Hgs. rewrite Hcreate in Hgs.
      rewrite (chat_sends ext message w1 _ _ c s Hgc Hgs). simpl.
      fold create. fold t. rewrite Hgen. repeat split.
Qed.

(** A fresh process is given the key ["k"] and asked a question before
    any upload. *)
Lemma get_client_missing_key_iff_witness :
  (chat (steady 0) "hello" (set_api_key (steady 0) "k" (fresh None)).2).1 =
    Ok [("response", JStr "No information found"); ("status", JStr "success")] ∧
  file_search_store (chat (steady 0) "hello" (set_api_key (steady 0) "k" (fresh None)).2).2 =
    Some {| name := "fileSearchStores/demo" |} ∧
  calls (chat (steady 0) "hello" (set_api_key (steady 0) "k" (fresh None)).2).2 =
    [GenerateContent {| api_key := "k" |} chat_model "hello" ["fileSearchStores/demo"];
     CreateStore {| api_key := "k" |} "demo-file-search-store"].
Proof.
  destruct (get_client_missing_key_iff (steady 0)) as [_ H].
  destruct (H "k" "hello" (fresh None)) as [_ H'];
    [discriminate | reflexivity |].
  apply (H' {| name := "fileSearchStores/demo" |} "No information found");
    reflexivity.
Defined.

(** C5, as stated, fails for the empty key.  [set_api_key ""] stores the
    key, whatever the library makes of it at construction (against a
    library that accepts every key the answer is even "success"), yet
    [get_client], and so [chat], still raise the 400 "not set" error. *)
Lemma empty_key_counts_as_missing :
  (set_api_key (steady 0) "" (fresh None)).1 =
    Ok [("status", JStr "success"); ("message", JStr "API key set successfully")] ∧
  (∀ ext : External,
     environ (set_api_key ext "" (fresh None)).2 = Some "" ∧
     (get_client ext (set_api_key ext "" (fresh None)).2).1 =
       Raise (HTTPException 400 missing_key_detail) ∧
     (chat ext "hello" (set_api_key ext "" (fresh None)).2).1 =
       Raise (HTTPException 400 missing_key_detail)).
Proof.
  split; [reflexivity |]. intros ext. rewrite set_api_key_world. repeat split.
Qed.

(** ** The wait loop *)

Lemma creations_app (l1 l2 : list Call) :
  creations (l1 ++ l2)%list = creations l1 + creations l2.
Proof. unfold creations. rewrite List.filter_app, length_app. reflexivity. Qed.

Lemma creations_gets (polls : list Call) :
  forallb is_get polls = true → creations polls = 0.
Proof.
  induction polls as [| call polls IH]; [reflexivity |].
  simpl. intros H. apply andb_prop in H as [Hc Hp].
  unfold creations in *. simpl. destruct call; try discriminate. simpl. auto.
Qed.

(** One pass through the loop body: sleep, then fetch the status. *)
Lemma wait_loop_unfold (ext : External) (n : nat) (c : Client) (fname : string)
    (start : N) (operation : Operation) (w : World) :
  wait_loop ext (S n) c fname start operation w =
    if done operation then Some (Ok operation, w)
    else if (timeout <? clock w - start)%N
    then Some (Raise (HTTPException 408 ("Timeout importing " ++ fname)), w)
    else
      let call := OperationsGet c operation in
      let t := (clock w + poll_interval)%N in
      let w' := set_calls (call :: calls w)
                  (set_clock (t + latency ext (calls w) t call)%N w) in
      match get_answer ext (calls w) t c operation with
      | inl msg => Some (Raise (Exception msg), w')
      | inr operation' => wait_loop ext n c fname start operation' w'
      end.
Proof.
  simpl. destruct (done operation); [reflexivity |].
  destruct (timeout <? clock w - start)%N; [reflexivity |].
  unfold bind, time_sleep, modify, request. simpl.
  destruct (get_answer ext (calls w) (clock w + poll_interval) c operation);
    reflexivity.
Qed.

(** More fuel does not change a result. *)
Lemma wait_loop_more_fuel (ext : External) (c : Client) (fname : string) (start : N) :
  ∀ (fuel extra : nat) (operation : Operation) (w : World) x,
    wait_loop ext fuel c fname start operation w = Some x →
    wait_loop ext (fuel + extra) c fname start operation w = Some x.
Proof.
  induction fuel as [| n IH]; intros extra operation w x H; [discriminate |].
  replace (S n + extra) with (S (n + extra)) by reflexivity.
  rewrite wait_loop_unfold in *.
  destruct (done operation); [exact H |].
  destruct (timeout <? clock w - start)%N; [exact H |].
  cbv zeta in *.
  destruct (get_answer ext (calls w) (clock w + poll_interval) c operation);
    [exact H | apply IH; exact H].
Qed.

(** With [n] sleeps left before the deadline is surely behind, [S n]
    passes through the loop head are enough. *)
Lemma wait_loop_runs (ext : External) (c : Client) (fname : string) (start : N) :
  ∀ (n : nat) (operation : Operation) (w : World),
    (start ≤ clock w)%N →
    (timeout < clock w - start + poll_interval * N.of_nat n)%N →
    ∃ r w', wait_loop ext (S n) c fname start operation w = Some (r, w') ∧
            waited ext c fname start n operation w r w'.
Proof.
  induction n as [| n IH]; intros operation w Hstart Hleft;
    rewrite wait_loop_unfold.
  - destruct (done operation) eqn:Hdone.
    { exists (Ok operation), w. split; [reflexivity |].
      split; try reflexivity; [| split; [exact Hdone | left; reflexivity]].
      exists []. simpl. repeat split; unfold poll_interval in *; lia. }
    destruct (timeout <? clock w - start)%N eqn:Hlate.
    { exists (Raise (HTTPException 408 ("Timeout importing " ++ fname))), w.
      split; [reflexivity |]. apply N.ltb_lt in Hlate.
      split; try reflexivity; [| repeat split; exact Hlate].
      exists []. simpl. repeat split; unfold poll_interval in *; lia. }
    apply N.ltb_ge in Hlate. unfold timeout, poll_interval in *. lia.
  - destruct (done operation) eqn:Hdone.
    { exists (Ok operation), w. split; [reflexivity |].
      split; try reflexivity; [| split; [exact Hdone | left; reflexivity]].
      exists []. simpl. repeat split; unfold poll_interval in *; lia. }
    destruct (timeout <? clock w - start)%N eqn:Hlate.
    { exists (Raise (HTTPException 408 ("Timeout importing " ++ fname))), w.
      split; [reflexivity |]. apply N.ltb_lt in Hlate.
      split; try reflexivity; [| repeat split; exact Hlate].
      exists []. simpl. repeat split; unfold poll_interval in *; lia. }
    apply N.ltb_ge in Hlate. cbv zeta.
    set (call := OperationsGet c operation).
    set (lat := latency ext (calls w) (clock w + poll_interval)%N call).
    set (w1 := set_calls (call :: calls w)
                 (set_clock (clock w + poll_interval + lat)%N w)).
    assert (Hc1 : clock w1 = (clock w + poll_interval + lat)%N) by reflexivity.
    assert (Hl1 : calls w1 = call :: calls w) by reflexivity.
    assert (Hwhen : (clock w + poll_interval ≤ start + timeout + poll_interval)%N)
      by (unfold timeout, poll_interval in *; lia).
    destruct (get_answer ext (calls w) (clock w + poll_interval)%N c operation)
      as [msg | operation'] eqn:Hans.
    { exists (Raise (Exception msg)), w1. split; [reflexivity |].
      split; try reflexivity; [| eauto].
      exists [call]. simpl. repeat split; unfold poll_interval in *; lia. }
    destruct (IH operation' w1) as (r & w' & Hrun & Hw);
      [unfold poll_interval in *; lia | unfold timeout, poll_interval in *; lia |].
    exists r, w'. split; [exact Hrun |].
    destruct Hw as [He Hc Hs Hu (polls & Hcalls & Hgets & Hlen & Hclock) Hout].
    split; try assumption.
    + exists (polls ++ [call])%list. rewrite <- app_assoc, Hcalls, Hl1.
      split; [reflexivity |]. rewrite forallb_app, Hgets, length_app.
      cbn [length forallb is_get call andb].
      repeat split; unfold poll_interval in *; lia.
    + destruct r as [final | [code detail | msg]]; try exact Hout.
      destruct Hout as [Hfinal [-> | Hfetched]]; (split; [exact Hfinal |]);
        right; eauto.
Qed.

(** The loop as [upload_files] runs it. *)
Lemma wait_for_import_waited (ext : External) (c : Client) (fname : string)
    (operation : Operation) (w : World) :
  wait_loop ext max_polls c fname (clock w) operation w =
    Some (wait_for_import ext c fname operation w) ∧
  waited ext c fname (clock w) 31 operation w
    (wait_for_import ext c fname operation w).1
    (wait_for_import ext c fname operation w).2.
Proof.
  destruct (wait_loop_runs ext c fname (clock w) 31 operation w) as (r & w' & Hrun & Hw);
    [lia | unfold timeout, poll_interval; lia |].
  unfold wait_for_import, max_polls. rewrite Hrun. split; [reflexivity | exact Hw].
Qed.

(** A run of the loop is a run of the wait as specified, round for
    round. *)
Lemma wait_loop_polling (ext : External) (c : Client) (fname : string) (start : N) :
  ∀ (fuel : nat) (operation : Operation) (w : World) r w',
    wait_loop ext fuel c fname start operation w = Some (r, w') →
    ∃ n, polling ext c fname start n operation w r w'.
Proof.
  induction fuel as [| fuel IH]; intros operation w r w' Hrun; [discriminate |].
  rewrite wait_loop_unfold in Hrun.
  destruct (done operation) eqn:Hdone.
  { injection Hrun as <- <-. exists 0. constructor. exact Hdone. }
  destruct (timeout <? clock w - start)%N eqn:Hlate.
  { injection Hrun as <- <-. apply N.ltb_lt in Hlate.
    exists 0. constructor; assumption. }
  apply N.ltb_ge in Hlate. cbv zeta in Hrun.
  destruct (get_answer ext (calls w) (clock w + poll_interval)%N c operation)
    as [msg | operation'] eqn:Hans.
  - injection Hrun as <- <-. exists 1. apply polling_raise; assumption.
  - destruct (IH operation' _ r w' Hrun) as (n & Hp).
    exists (S n). eapply polling_again; eassumption.
Qed.

(** Each round adds one request to the log. *)
Lemma polling_rounds (ext : External) (c : Client) (fname : string) (start : N) :
  ∀ n operation w r w',
    polling ext c fname start n operation w r w' →
    length (calls w') = n + length (calls w).
Proof.
  induction 1 as [| | | n operation operation' w r w' _ _ _ _ IH]; try reflexivity.
  rewrite IH. simpl. lia.
Qed.

(** The wait as specified has one outcome. *)
Lemma polling_functional (ext : External) (c : Client) (fname : string) (start : N) :
  ∀ n operation w r w',
    polling ext c fname start n operation w r w' →
    ∀ n' r' w'',
      polling ext c fname start n' operation w r' w'' →
      n' = n ∧ r' = r ∧ w'' = w'.
Proof.
  induction 1 as [operation w Hd | operation w Hd Hlate | operation w msg Hd Hlate Hans
                  | n operation operation' w r w' Hd Hlate Hans Hrest IH];
    intros n' r' w'' Hother; inversion Hother; subst;
    try congruence; try lia; try (repeat split; congruence).
  assert (operation'0 = operation') by congruence. subst operation'0.
  match goal with H : polling _ _ _ _ _ operation' _ _ _ |- _ =>
    destruct (IH _ _ _ H) as (-> & -> & ->) end.
  repeat split.
Qed.

(** C4. The wait loop always ends, and it is the wait that is specified.
    Whatever the service answers and however long its answers take, the
    loop started by [upload_files] returns after at most 31 rounds, and
    running it with any larger bound on the number of passes gives the
    same result.  Its run is the one run of [polling]: the flag is looked
    at before anything else and ends the wait in success; each round
    sleeps 2 time units and then fetches the status of the operation in
    hand; the 408 that names the file is raised once more than 60 time
    units have passed since the start.  When a status fetch itself
    raises, the wait ends with that exception; so when every status
    fetch is answered, it ends in success or in the 408.  It touches
    nothing but the clock and the request log. *)
Theorem wait_for_import_terminates (ext : External) (c : Client) (fname : string)
    (operation : Operation) (w : World) :
  ∃ (r : result Operation) (w' : World) (n : nat),
    wait_for_import ext c fname operation w = (r, w') ∧
    (n ≤ 31)%nat ∧
    polling ext c fname (clock w) n operation w r w' ∧
    (∀ n' r' w'', polling ext c fname (clock w) n' operation w r' w'' →
                  n' = n ∧ r' = r ∧ w'' = w') ∧
    (∀ fuel, (max_polls ≤ fuel)%nat →
             wait_loop ext fuel c fname (clock w) operation w = Some (r, w')) ∧
    waited ext c fname (clock w) 31 operation w r w' ∧
    ((∀ log t o, ∃ o', get_answer ext log t c o = inr o') →
     (∃ final, r = Ok final ∧ done final = true) ∨
     (r = Raise (HTTPException 408 ("Timeout importing " ++ fname)) ∧
      (timeout < clock w' - clock w)%N)).
Proof.
  destruct (wait_for_import_waited ext c fname operation w) as [Hrun Hw].
  destruct (wait_for_import ext c fname operation w) as [r w'] eqn:Hwait.
  cbn [fst snd] in Hw.
  destruct (wait_loop_polling ext c fname (clock w) max_polls operation w r w' Hrun)
    as (n & Hp).
  exists r, w', n. split; [reflexivity |].
  split.
  { pose proof (polling_rounds ext c fname (clock w) n operation w r w' Hp) as Hn.
    destruct Hw as [_ _ _ _ (polls & Hcalls & _ & Hlen & _) _].
    rewrite Hcalls, length_app in Hn. lia. }
  split; [exact Hp |].
  split; [apply (polling_functional ext c fname (clock w) n operation w r w' Hp) |].
  split; [| split; [exact Hw |]].
  - intros fuel Hfuel. replace fuel with (max_polls + (fuel - max_polls)) by lia.
    apply wait_loop_more_fuel. exact Hrun.
  - intros Hanswers. destruct Hw as [_ _ _ _ _ Hout]. simpl in Hout.
    destruct r as [final | [code detail | msg]].
    + left. exists final. split; [reflexivity | apply Hout].
    + right. destruct Hout as (-> & -> & Hlate). split; [reflexivity | exact Hlate].
    + destruct Hout as (log & t & o & _ & Hraise).
      destruct (Hanswers log t o) as [o' Ho']. congruence.
Qed.

(** ** What a handler leaves of the globals *)

Lemma kept_refl (w : World) : kept w w.
Proof. split; reflexivity. Qed.

Lemma kept_trans (w1 w2 w3 : World) : kept w1 w2 → kept w2 w3 → kept w1 w3.
Proof. intros [] []. split; congruence. Qed.

Lemma kept_bind {A B} (m : M A) (k : A → M B) (w : World) :
  kept w (m w).2 → (∀ a w1, kept w1 (k a w1).2) → kept w (bind m k w).2.
Proof.
  intros Hm Hk. unfold bind. destruct (m w) as [[a | e] w1]; simpl in *.
  - eapply kept_trans; [exact Hm | apply Hk].
  - exact Hm.
Qed.

Lemma kept_request {A} (ext : External) (call : Call)
    (answer : list Call → N → string + A) (w : World) :
  is_create call = false → kept w (request ext call answer w).2.
Proof.
  intros Hcall. unfold request.
  destruct (answer (calls w) (clock w)); simpl;
    (split; try reflexivity; simpl; unfold creations; simpl; rewrite Hcall; reflexivity).
Qed.

Lemma kept_save_locally (ext : External) (file : UploadFile) (w : World) :
  kept w (save_locally ext file w).2.
Proof.
  unfold save_locally. destruct (resolve (filename file)) as [entry | path | msg | entry path];
    [| destruct (elsewhere_error ext path) | | destruct (uploads w !! entry)];
    simpl; apply kept_refl || (split; reflexivity).
Qed.

Lemma kept_wait_for_import (ext : External) (c : Client) (fname : string)
    (operation : Operation) (w : World) :
  kept w (wait_for_import ext c fname operation w).2.
Proof.
  destruct (wait_for_import_waited ext c fname operation w)
    as [_ [He Hc Hs _ (polls & Hcalls & Hgets & _) _]].
  split; try assumption.
  rewrite Hcalls, creations_app, (creations_gets polls Hgets). reflexivity.
Qed.

Lemma kept_import_file (ext : External) (c : Client) (s : Store) (file : UploadFile)
    (w : World) :
  kept w (import_file ext c s file w).2.
Proof.
  unfold import_file. apply kept_bind; [apply kept_save_locally |].
  intros _ w1. apply kept_bind; [apply kept_request; reflexivity |].
  intros operation w2. apply kept_bind; [apply kept_wait_for_import |].
  intros _ w3. apply kept_refl.
Qed.

Lemma kept_upload_loop (ext : External) (c : Client) (s : Store) :
  ∀ (files : list UploadFile) (n : nat) (w : World),
    kept w (upload_loop ext c s files n w).2.
Proof.
  induction files as [| file rest IH]; intros n w; simpl.
  - apply kept_refl.
  - apply kept_bind; [apply kept_import_file |]. intros _ w1. apply IH.
Qed.

(** [upload_files] once the client and the index are obtained. *)
Lemma upload_files_runs (ext : External) (files : list UploadFile) (w w0 w1 : World)
    (c : Client) (s : Store) :
  files ≠ [] →
  get_client ext w = (Ok c, w0) →
  get_file_search_store ext w0 = (Ok s, w1) →
  upload_files ext files w =
    match upload_loop ext c s files 0 w1 with
    | (Ok n, w') =>
        (Ok [("status", JStr "success"); ("uploaded", JNum n);
             ("message", JStr ("Successfully uploaded " ++ pretty n ++ " file(s)"))], w')
    | (Raise (Exception msg), w') => (Raise (HTTPException 500 msg), w')
    | (Raise e, w') => (Raise e, w')
    end.
Proof.
  intros Hne Hc Hs. destruct files as [| file rest]; [congruence |].
  unfold upload_files, reraise_as, bind. rewrite Hc, Hs.
  destruct (upload_loop ext c s (file :: rest) 0 w1) as [[n | [code d | msg]] w'];
    reflexivity.
Qed.

Lemma upload_files_world (ext : External) (files : list UploadFile) (w w0 w1 : World)
    (c : Client) (s : Store) :
  get_client ext w = (Ok c, w0) →
  get_file_search_store ext w0 = (Ok s, w1) →
  files ≠ [] →
  (upload_files ext files w).2 = (upload_loop ext c s files 0 w1).2.
Proof.
  intros Hc Hs Hne. rewrite (upload_files_runs ext files w w0 w1 c s Hne Hc Hs).
  destruct (upload_loop ext c s files 0 w1) as [[n | [code d | msg]] w'];
    reflexivity.
Qed.

Lemma kept_handle (ext : External) (r : Request) (w : World) (c : Client) (s : Store) :
  client w = Some c → file_search_store w = Some s → is_set_api_key r = false →
  kept w (handle ext r w).
Proof.
  intros Hc Hs Hr.
  pose proof (get_client_cached ext w c Hc) as Hgc.
  pose proof (get_file_search_store_cached ext w s Hs) as Hgs.
  destruct r as [key | files | | message]; simpl; [discriminate | | |].
  - destruct files as [| file rest]; [apply kept_refl |].
    rewrite (upload_files_world ext (file :: rest) w w w c s Hgc Hgs); [| discriminate].
    apply kept_upload_loop.
  - apply kept_refl.
  - rewrite (chat_sends ext message w w w c s Hgc Hgs). simpl.
    split; reflexivity.
Qed.

Lemma kept_serve (ext : External) (c : Client) (s : Store) :
  ∀ (rs : list Request) (w : World),
    client w = Some c → file_search_store w = Some s →
    forallb (fun r => negb (is_set_api_key r)) rs = true →
    kept w (serve ext rs w).
Proof.
  induction rs as [| r rs IH]; intros w Hc Hs Hrs; simpl.
  - apply kept_refl.
  - simpl in Hrs. apply andb_prop in Hrs as [Hr Hrs].
    apply negb_true_iff in Hr.
    pose proof (kept_handle ext r w c s Hc Hs Hr) as Hk.
    eapply kept_trans; [exact Hk |].
    apply IH; [| | exact Hrs].
    + rewrite (kept_client _ _ Hk). exact Hc.
    + rewrite (kept_store _ _ Hk). exact Hs.
Qed.

(** ** The index is created once *)

Lemma get_client_effect (ext : External) (w w0 : World) (c : Client) :
  get_client ext w = (Ok c, w0) →
  client w0 = Some c ∧ environ w0 = environ w ∧
  file_search_store w0 = file_search_store w ∧ uploads w0 = uploads w ∧
  clock w0 = clock w ∧ calls w0 = calls w.
Proof.
  unfold get_client, bind, gets, genai_Client. simpl.
  destruct (client w) as [c' |] eqn:Hc; simpl.
  { intros [= <- <-]. repeat split. exact Hc. }
  destruct (environ w) as [[| a k] |] eqn:He; simpl; try discriminate.
  destruct (client_error ext (String a k)); simpl; [discriminate |].
  intros [= <- <-]. repeat split. exact He.
Qed.

(** C6, as the code has it.  From a state with no index cached in which
    a client can be had, and when the service answers the creation
    request with [s]:
    - the first [get_file_search_store] sends that one creation request,
      returns [s] and caches it;
    - after any sequence of uploads, listings and chats (no
      [set_api_key] among them), [get_file_search_store] still returns
      [s] and changes nothing, so it sends no request, and the request
      log holds exactly one creation more than before the first call.
    So there is at most one creation between two calls of [set_api_key]. *)
Theorem get_file_search_store_once (ext : External) (w w0 : World) (c : Client)
    (s : Store) :
  file_search_store w = None →
  get_client ext w = (Ok c, w0) →
  create_answer ext (calls w) (clock w) c = inr s →
  ∃ w1, get_file_search_store ext w = (Ok s, w1) ∧
        calls w1 = CreateStore c "demo-file-search-store" :: calls w ∧
        file_search_store w1 = Some s ∧
        ∀ rs : list Request,
          forallb (fun r => negb (is_set_api_key r)) rs = true →
          get_file_search_store ext (serve ext rs w1) = (Ok s, serve ext rs w1) ∧
          creations (calls (serve ext rs w1)) = S (creations (calls w)).
Proof.
  intros Hnone Hgc Hans.
  destruct (get_client_effect ext w w0 c Hgc) as (Hc0 & _ & Hs0 & _ & Hclock0 & Hcalls0).
  set (call := CreateStore c "demo-file-search-store").
  set (w1 := set_file_search_store (Some s)
               (set_calls (call :: calls w0)
                  (set_clock (clock w0 + latency ext (calls w0) (clock w0) call)%N w0))).
  assert (Hfirst : get_file_search_store ext w = (Ok s, w1)).
  { unfold get_file_search_store, bind, gets. simpl. rewrite Hnone, Hgc.
    unfold request. simpl. rewrite Hcalls0, Hclock0, Hans. simpl.
    subst w1 call. rewrite Hcalls0, Hclock0. reflexivity. }
  exists w1. split; [exact Hfirst |].
  split; [simpl; rewrite Hcalls0; reflexivity |].
  split; [reflexivity |].
  intros rs Hrs.
  pose proof (kept_serve ext c s rs w1 Hc0 eq_refl Hrs) as [_ _ Hs Hn].
  split.
  - apply get_file_search_store_cached. rewrite Hs. reflexivity.
  - rewrite Hn. simpl. rewrite Hcalls0. reflexivity.
Qed.

(** A fresh process with key ["k"]: the index is created by the first
    lookup; an upload, a listing, two questions and a second upload
    later there is still that one creation in the log. *)
Lemma get_file_search_store_once_witness :
  ∃ w1, get_file_search_store (steady 0) (fresh (Some "k"))
          = (Ok {| name := "fileSearchStores/demo" |}, w1) ∧
        calls w1 = [CreateStore {| api_key := "k" |} "demo-file-search-store"] ∧
        file_search_store w1 = Some {| name := "fileSearchStores/demo" |} ∧
        ∀ rs : list Request,
          forallb (fun r => negb (is_set_api_key r)) rs = true →
          get_file_search_store (steady 0) (serve (steady 0) rs w1)
            = (Ok {| name := "fileSearchStores/demo" |}, serve (steady 0) rs w1) ∧
          creations (calls (serve (steady 0) rs w1)) = 1.
Proof.
  apply (get_file_search_store_once (steady 0) (fresh (Some "k"))
           (set_client (Some {| api_key := "k" |}) (fresh (Some "k")))
           {| api_key := "k" |} {| name := "fileSearchStores/demo" |});
    reflexivity.
Defined.

(** C6, as stated, fails when the same key is set again.  A process is
    given the key ["k"] and asked a question, which creates the index;
    it is then given the key ["k"] once more.  The stored key is the same
    as before, yet the cached handle is gone and the next lookup sends a
    second creation request under that key. *)
Lemma same_key_creates_again :
  let w1 := serve (steady 0) [PostSetApiKey "k"; PostChat "q"] (fresh None) in
  let w2 := handle (steady 0) (PostSetApiKey "k") w1 in
  file_search_store w1 = Some {| name := "fileSearchStores/demo" |} ∧
  creations (calls w1) = 1 ∧
  environ w2 = environ w1 ∧
  file_search_store w2 = None ∧
  calls (get_file_search_store (steady 0) w2).2 =
    CreateStore {| api_key := "k" |} "demo-file-search-store" :: calls w1 ∧
  creations (calls (get_file_search_store (steady 0) w2).2) = 2.
Proof. vm_compute. repeat split. Qed.

(** ** One file of a batch *)

Lemma save_locally_plain (ext : External) (file : UploadFile) (w : World) :
  plain (filename file) →
  save_locally ext file w =
    (Ok tt, set_uploads (<[filename file := {| content := body file;
                                               st_mtime := clock w |}]> (uploads w)) w).
Proof. unfold plain, save_locally. intros ->. reflexivity. Qed.

(** The pass for a file with a plain name: the file is written, the
    submission is sent, and the wait decides. *)
Lemma import_file_plain (ext : External) (c : Client) (s : Store) (file : UploadFile)
    (w : World) :
  plain (filename file) →
  import_file ext c s file w =
    let call := UploadToStore c (path_str (filename file)) (name s) (filename file) in
    let w1 :=
      set_calls (call :: calls w)
        (set_clock (clock w + latency ext (calls w) (clock w) call)%N
           (set_uploads (<[filename file := {| content := body file;
                                               st_mtime := clock w |}]> (uploads w)) w)) in
    match upload_answer ext (calls w) (clock w) c (path_str (filename file)) (name s)
            (filename file) with
    | inl msg => (Raise (Exception msg), w1)
    | inr operation =>
        match wait_for_import ext c (filename file) operation w1 with
        | (Ok _, w2) => (Ok tt, w2)
        | (Raise e, w2) => (Raise e, w2)
        end
    end.
Proof.
  intros Hplain. unfold import_file, bind. rewrite (save_locally_plain ext file w Hplain).
  unfold request. simpl.
  destruct (upload_answer ext (calls w) (clock w) c (path_str (filename file)) (name s)
              (filename file)) as [msg | operation]; [reflexivity |].
  destruct (wait_for_import ext c (filename file) operation _) as [[final | e] w2];
    reflexivity.
Qed.

(** Whatever becomes of the submission and the wait, the file is in the
    directory afterwards, and no other entry has changed. *)
Lemma import_file_uploads (ext : External) (c : Client) (s : Store) (file : UploadFile)
    (w : World) :
  plain (filename file) →
  uploads (import_file ext c s file w).2 =
    <[filename file := {| content := body file; st_mtime := clock w |}]> (uploads w).
Proof.
  intros Hplain. rewrite (import_file_plain ext c s file w Hplain). cbv zeta.
  destruct (upload_answer ext (calls w) (clock w) c (path_str (filename file)) (name s)
              (filename file)) as [msg | operation]; [reflexivity |].
  match goal with |- context [wait_for_import ext c ?f ?o ?w1] =>
    destruct (wait_for_import_waited ext c f o w1) as [_ [_ _ _ Hu _ _]];
    destruct (wait_for_import ext c f o w1) as [[final | e] w2] end;
    simpl in *; rewrite Hu; reflexivity.
Qed.

(** ** A batch whose files are all ingested *)

Lemma upload_loop_ingests (ext : External) (c : Client) (s : Store) :
  ∀ (files : list UploadFile) (w w2 : World),
    ingests ext c s files w w2 →
    ∀ (rest : list UploadFile) (n : nat),
      upload_loop ext c s (files ++ rest)%list n w =
        upload_loop ext c s rest (n + length files) w2.
Proof.
  induction 1 as [w | file files w w1 w2 Hfile _ IH]; intros rest n.
  - simpl. rewrite Nat.add_0_r. reflexivity.
  - simpl. unfold bind at 1. rewrite Hfile. rewrite IH.
    f_equal. lia.
Qed.

Lemma ingests_uploads (ext : External) (c : Client) (s : Store) :
  ∀ (files : list UploadFile) (w w2 : World),
    ingests ext c s files w w2 →
    Forall (fun f => plain (filename f)) files →
    dom (uploads w2) = list_to_set (filename <$> files) ∪ dom (uploads w) ∧
    (∀ n, n ∉ (filename <$> files) → uploads w2 !! n = uploads w !! n) ∧
    (NoDup (filename <$> files) →
     ∀ f, f ∈ files →
          ∃ t, uploads w2 !! filename f = Some {| content := body f; st_mtime := t |}).
Proof.
  induction 1 as [w | file files w w1 w2 Hfile _ IH]; intros Hplain.
  - split; [| split; [reflexivity |]].
    + simpl. apply set_eq. intros x. rewrite elem_of_union, elem_of_empty. tauto.
    + intros _ f Hf. inversion Hf.
  - apply Forall_cons in Hplain as [Hp Hplain].
    destruct (IH Hplain) as (Hdom & Hother & Hin).
    assert (Hu : uploads w1 = <[filename file := {| content := body file;
                                                   st_mtime := clock w |}]> (uploads w)).
    { rewrite <- (import_file_uploads ext c s file w Hp), Hfile. reflexivity. }
    split; [| split].
    + rewrite Hdom, Hu, dom_insert_L, fmap_cons, list_to_set_cons.
      apply set_eq. intros x. rewrite !elem_of_union. tauto.
    + intros n Hn. rewrite fmap_cons in Hn. apply not_elem_of_cons in Hn as [Hne Hn].
      rewrite (Hother n Hn), Hu. apply lookup_insert_ne. congruence.
    + intros Hnodup f Hf. rewrite fmap_cons in Hnodup.
      apply NoDup_cons in Hnodup as [Hfresh Hnodup].
      apply elem_of_cons in Hf as [-> | Hf].
      * exists (clock w). rewrite (Hother _ Hfresh), Hu. apply lookup_insert_eq.
      * apply (Hin Hnodup f Hf).
Qed.

(** ** Listing the directory *)

Lemma list_files_lists (ext : External) (w : World) :
  list_files ext w = (Ok (file_info ext <$> map_to_list (uploads w)), w).
Proof. reflexivity. Qed.

Lemma listed_lookup (ext : External) (w : World) (n : string) (k : nat) :
  listed (file_info ext <$> map_to_list (uploads w)) n k ↔
  ∃ lf, uploads w !! n = Some lf ∧ k = length (content lf).
Proof.
  unfold listed. split.
  - intros [t Hin]. apply list_elem_of_fmap in Hin as [[n' lf] [Heq Hin]].
    unfold file_info in Heq. simpl in Heq. injection Heq as -> -> _.
    apply elem_of_map_to_list in Hin. eauto.
  - intros [lf [Hlf ->]]. exists (ctime ext (st_mtime lf)).
    apply list_elem_of_fmap. exists (n, lf). split; [reflexivity |].
    apply elem_of_map_to_list. exact Hlf.
Qed.

Lemma listing_length (ext : External) (w : World) :
  length (file_info ext <$> map_to_list (uploads w)) = size (uploads w).
Proof. rewrite length_fmap. apply length_map_to_list. Qed.

Lemma get_file_search_store_effect (ext : External) (w0 w1 : World) (s : Store) :
  get_file_search_store ext w0 = (Ok s, w1) →
  file_search_store w1 = Some s ∧ uploads w1 = uploads w0 ∧ environ w1 = environ w0.
Proof.
  unfold get_file_search_store, bind, gets. simpl.
  destruct (file_search_store w0) as [s' |] eqn:Hs; simpl.
  { intros [= <- <-]. repeat split. exact Hs. }
  destruct (get_client ext w0) as [[c | e] w0'] eqn:Hgc; [| discriminate].
  destruct (get_client_effect ext w0 w0' c Hgc) as (_ & He & _ & Hu & _).
  unfold request. simpl.
  destruct (create_answer ext (calls w0') (clock w0') c); simpl; [discriminate |].
  intros [= <- <-]. simpl. repeat split; assumption.
Qed.

Lemma upload_loop_single (ext : External) (c : Client) (s : Store) (file : UploadFile)
    (n : nat) (w : World) :
  (upload_loop ext c s [file] n w).2 = (import_file ext c s file w).2.
Proof.
  simpl. unfold bind. destruct (import_file ext c s file w) as [[[] | e] w']; reflexivity.
Qed.

(** ** A batch that is ingested in full *)

(** Once every file of a batch has been ingested, the answer is the
    success body with the size of the batch, and the listing shows the
    batch and what was there before. *)
Lemma ingested_then_list (ext : External) (files : list UploadFile)
    (w w0 w1 w2 : World) (c : Client) (s : Store) :
  files ≠ [] →
  NoDup (filename <$> files) →
  Forall (fun f => plain (filename f)) files →
  get_client ext w = (Ok c, w0) →
  get_file_search_store ext w0 = (Ok s, w1) →
  ingests ext c s files w1 w2 →
  upload_files ext files w =
    (Ok [("status", JStr "success");
         ("uploaded", JNum (length files));
         ("message", JStr ("Successfully uploaded " ++ pretty (length files)
                           ++ " file(s)"))], w2) ∧
  ∃ L, list_files ext w2 = (Ok L, w2) ∧
       (∀ n k, listed L n k ↔
               (∃ f, f ∈ files ∧ filename f = n ∧ k = length (body f)) ∨
               ((n ∉ (filename <$> files)) ∧
                ∃ lf, uploads w !! n = Some lf ∧ k = length (content lf))) ∧
       (uploads w = ∅ → length L = length files).
Proof.
  intros Hne Hnodup Hplain Hgc Hgs Hing.
  destruct (get_client_effect ext w w0 c Hgc) as (_ & _ & _ & Hu0 & _).
  destruct (get_file_search_store_effect ext w0 w1 s Hgs) as (_ & Hu1 & _).
  destruct (ingests_uploads ext c s files w1 w2 Hing Hplain) as (Hdom & Hother & Hin).
  specialize (Hin Hnodup). rewrite Hu1, Hu0 in Hdom.
  assert (Hold : ∀ n, n ∉ (filename <$> files) → uploads w2 !! n = uploads w !! n).
  { intros n Hn. rewrite (Hother n Hn), Hu1, Hu0. reflexivity. }
  split.
  - rewrite (upload_files_runs ext files w w0 w1 c s Hne Hgc Hgs).
    pose proof (upload_loop_ingests ext c s files w1 w2 Hing [] 0) as Hloop.
    rewrite app_nil_r in Hloop. rewrite Hloop. reflexivity.
  - exists (file_info ext <$> map_to_list (uploads w2)).
    split; [apply list_files_lists |]. split.
    + intros n k. rewrite listed_lookup. split.
      * intros (lf & Hlf & ->).
        destruct (decide (n ∈ (filename <$> files))) as [Hn | Hn].
        -- left. apply list_elem_of_fmap in Hn as (f & -> & Hf).
           destruct (Hin f Hf) as [t Ht]. rewrite Ht in Hlf. injection Hlf as <-.
           exists f. repeat split. exact Hf.
        -- right. split; [exact Hn |]. exists lf.
           rewrite <- (Hold n Hn). split; [exact Hlf | reflexivity].
      * intros [(f & Hf & <- & ->) | (Hn & lf & Hlf & ->)].
        -- destruct (Hin f Hf) as [t Ht]. eexists. split; [exact Ht | reflexivity].
        -- exists lf. rewrite (Hold n Hn). split; [exact Hlf | reflexivity].
    + intros Hempty. rewrite listing_length, <- (size_dom (uploads w2)), Hdom, Hempty.
      rewrite dom_empty_L, (right_id_L ∅ (∪)). rewrite size_list_to_set; [| exact Hnodup].
      apply length_fmap.
Qed.

(** When every operation is complete within [D] of its submission and
    every answer is back within [L], with [D + L] no more than the
    deadline, a wait that starts right after the submission sees the flag
    true before the deadline check can fire. *)
Lemma wait_loop_completes (ext : External) (c : Client) (fname : string) (start : N)
    (due : Operation → N) (D L : N) :
  (D + L ≤ timeout)%N →
  (∀ log t call, (latency ext log t call ≤ L)%N) →
  (∀ log t o, ∃ o', get_answer ext log t c o = inr o' ∧ due o' = due o ∧
                    ((due o ≤ t)%N → done o' = true)) →
  ∀ (fuel : nat) (operation : Operation) (w : World) r w',
    (due operation ≤ start + D)%N →
    (done operation = true ∨ (clock w ≤ start + timeout)%N) →
    wait_loop ext fuel c fname start operation w = Some (r, w') →
    ∃ final, r = Ok final.
Proof.
  intros HDL Hlat Hget.
  induction fuel as [| fuel IH]; intros operation w r w' Hdue Hhead Hrun; [discriminate |].
  rewrite wait_loop_unfold in Hrun.
  destruct (done operation) eqn:Hdone; [injection Hrun as <- _; eauto |].
  destruct Hhead as [? | Hclock]; [discriminate |].
  destruct (timeout <? clock w - start)%N eqn:Hlate; [apply N.ltb_lt in Hlate; lia |].
  cbv zeta in Hrun.
  set (t := (clock w + poll_interval)%N) in *.
  destruct (Hget (calls w) t operation) as (o' & Hans & Hdue' & Hdone').
  rewrite Hans in Hrun.
  eapply (IH o' _ r w'); [rewrite Hdue'; exact Hdue | | exact Hrun].
  destruct (N.le_gt_cases (due operation) t) as [Hle | Hgt]; [left; auto |].
  right. cbn [clock set_calls set_clock].
  pose proof (Hlat (calls w) t (OperationsGet c operation)). unfold timeout in *. lia.
Qed.

Lemma ingests_in_time (ext : External) (c : Client) (s : Store)
    (due : Operation → N) (D L : N) :
  (D + L ≤ timeout)%N →
  (∀ log t call, (latency ext log t call ≤ L)%N) →
  (∀ log t p n d, ∃ o, upload_answer ext log t c p n d = inr o ∧ (due o ≤ t + D)%N) →
  (∀ log t o, ∃ o', get_answer ext log t c o = inr o' ∧ due o' = due o ∧
                    ((due o ≤ t)%N → done o' = true)) →
  ∀ (files : list UploadFile) (w : World),
    Forall (fun f => plain (filename f)) files →
    ∃ w2, ingests ext c s files w w2.
Proof.
  intros HDL Hlat Hsubmit Hget. induction files as [| file rest IH]; intros w Hplain.
  - exists w. constructor.
  - apply Forall_cons in Hplain as [Hp Hplain].
    assert (Hfile : ∃ w1, import_file ext c s file w = (Ok tt, w1)).
    { rewrite (import_file_plain ext c s file w Hp). cbv zeta.
      destruct (Hsubmit (calls w) (clock w) (path_str (filename file)) (name s)
                  (filename file)) as (o & -> & Hdue).
      match goal with |- context [wait_for_import ext c ?f o ?w1] =>
        set (w3 := w1) end.
      destruct (wait_for_import_waited ext c (filename file) o w3) as [Hrun _].
      destruct (wait_for_import ext c (filename file) o w3) as [r w4].
      destruct (wait_loop_completes ext c (filename file) (clock w3) due D L HDL Hlat Hget
                  max_polls o w3 r w4) as [final ->];
        [subst w3; cbn [clock set_calls set_clock set_uploads]; lia
        | right; unfold timeout; lia | exact Hrun |].
      eauto. }
    destruct Hfile as [w1 Hfile]. destruct (IH w1 Hplain) as [w2 Hrest].
    exists w2. econstructor; eassumption.
Qed.

(** C1, as the code has it.  A batch that is not empty, of files with
    distinct plain names, is uploaded by a process that has (or can get)
    its client and index, to a service that answers every submission and
    every status fetch, completes every operation within [D] time units
    of its submission and sends every answer back within [L] time units,
    where [D + L] is no more than the deadline of 60.  Then
    [upload_files] answers 200 with [uploaded] equal to the number of
    files, and [list_files] afterwards shows, for each file of the batch,
    its name with the byte length of its content, and besides these
    exactly the files that were in the directory before under other
    names, with their sizes: one entry per name. *)
Theorem upload_then_list (ext : External) (files : list UploadFile)
    (w w0 w1 : World) (c : Client) (s : Store) (due : Operation → N) (D L : N) :
  files ≠ [] →
  NoDup (filename <$> files) →
  Forall (fun f => plain (filename f)) files →
  get_client ext w = (Ok c, w0) →
  get_file_search_store ext w0 = (Ok s, w1) →
  (D + L ≤ timeout)%N →
  (∀ log t call, (latency ext log t call ≤ L)%N) →
  (∀ log t p n d, ∃ o, upload_answer ext log t c p n d = inr o ∧ (due o ≤ t + D)%N) →
  (∀ log t o, ∃ o', get_answer ext log t c o = inr o' ∧ due o' = due o ∧
                    ((due o ≤ t)%N → done o' = true)) →
  ∃ (w2 : World) (listing : list JSON),
    upload_files ext files w =
      (Ok [("status", JStr "success");
           ("uploaded", JNum (length files));
           ("message", JStr ("Successfully uploaded " ++ pretty (length files)
                             ++ " file(s)"))], w2) ∧
    list_files ext w2 = (Ok listing, w2) ∧
    (∀ n k, listed listing n k ↔
            (∃ f, f ∈ files ∧ filename f = n ∧ k = length (body f)) ∨
            ((n ∉ (filename <$> files)) ∧
             ∃ lf, uploads w !! n = Some lf ∧ k = length (content lf))) ∧
    length listing = size (list_to_set (filename <$> files) ∪ dom (uploads w) : gset string).
Proof.
  intros Hne Hnodup Hplain Hgc Hgs HDL Hlat Hsubmit Hget.
  destruct (ingests_in_time ext c s due D L HDL Hlat Hsubmit Hget files w1 Hplain)
    as [w2 Hing].
  destruct (ingested_then_list ext files w w0 w1 w2 c s Hne Hnodup Hplain Hgc Hgs Hing)
    as (Hup & listing & Hlist & Hiff & _).
  exists w2, listing. split; [exact Hup |]. split; [exact Hlist |]. split; [exact Hiff |].
  rewrite list_files_lists in Hlist. injection Hlist as <-.
  destruct (get_client_effect ext w w0 c Hgc) as (_ & _ & _ & Hu0 & _).
  destruct (get_file_search_store_effect ext w0 w1 s Hgs) as (_ & Hu1 & _).
  destruct (ingests_uploads ext c s files w1 w2 Hing Hplain) as (Hdom & _ & _).
  rewrite listing_length, <- (size_dom (uploads w2)), Hdom, Hu1, Hu0. reflexivity.
Qed.

Lemma unary_length (n : nat) : String.length (unary n) = n.
Proof. induction n as [| n IH]; simpl; congruence. Qed.

(** Two files are uploaded to a directory that already holds ["b.txt"]
    from an earlier upload; every operation takes 3 time units, so each
    wait goes through two rounds. *)
Lemma upload_then_list_witness :
  let files := [a_txt; c_txt] in
  let w := (upload_files (paced 3) [b_txt] (fresh (Some "k"))).2 in
  ∃ (w2 : World) (listing : list JSON),
    upload_files (paced 3) files w =
      (Ok [("status", JStr "success");
           ("uploaded", JNum 2);
           ("message", JStr "Successfully uploaded 2 file(s)")], w2) ∧
    list_files (paced 3) w2 = (Ok listing, w2) ∧
    (∀ n k, listed listing n k ↔
            (∃ f, f ∈ files ∧ filename f = n ∧ k = length (body f)) ∨
            ((n ∉ (filename <$> files)) ∧
             ∃ lf, uploads w !! n = Some lf ∧ k = length (content lf))) ∧
    length listing = size (list_to_set (filename <$> files) ∪ dom (uploads w) : gset string).
Proof.
  intros files w.
  apply (upload_then_list (paced 3) files w w w {| api_key := "k" |}
           {| name := "fileSearchStores/demo" |} due_of 3 0).
  - discriminate.
  - apply (bool_decide_unpack _). vm_compute. reflexivity.
  - repeat constructor.
  - vm_compute. reflexivity.
  - vm_compute. reflexivity.
  - unfold timeout. lia.
  - intros log t call. simpl. lia.
  - intros log t p n d. eexists. split; [reflexivity |].
    unfold due_of. cbn [op_name]. rewrite unary_length. lia.
  - intros log t o. eexists. split; [reflexivity |]. split; [reflexivity |].
    cbn [done]. intros Hdue. apply N.leb_le. exact Hdue.
Defined.

(** C1, as stated, fails in two ways.  On a service that completes an
    operation at time 55, within the deadline, but takes 11 time units
    to answer a status fetch, the statuses fetched at times 2 to 54 all
    come before the completion, the last answer is back at time 65, and
    the upload of one file ends in the 408.  And after ["b.txt"] has been
    uploaded, a batch with the single file ["a.txt"] is ingested in full
    and answered with [uploaded = 1], and the listing that follows has
    two entries, ["b.txt"] among them. *)
Lemma in_time_yet_late_and_listing_keeps_files :
  (∀ log t c o o', (55 ≤ t)%N →
                   get_answer sluggish log t c o = inr o' → done o' = true) ∧
  upload_files sluggish [a_txt] (fresh (Some "k")) =
    (Raise (HTTPException 408 "Timeout importing a.txt"),
     (upload_files sluggish [a_txt] (fresh (Some "k"))).2) ∧
  clock (upload_files sluggish [a_txt] (fresh (Some "k"))).2 = 65%N ∧
  (let w := (upload_files (steady 0) [b_txt] (fresh (Some "k"))).2 in
   (upload_files (steady 0) [a_txt] w).1 =
     Ok [("status", JStr "success");
         ("uploaded", JNum 1);
         ("message", JStr "Successfully uploaded 1 file(s)")] ∧
   (list_files (steady 0) (upload_files (steady 0) [a_txt] w).2).1 =
     Ok [[("filename", JStr "a.txt"); ("size", JNum 2); ("uploaded_at", JStr "0")];
         [("filename", JStr "b.txt"); ("size", JNum 1); ("uploaded_at", JStr "0")]]).
Proof.
  split; [| split; [| split; [| split]]]; try (vm_compute; reflexivity).
  intros log t c o o' Ht [= <-]. simpl. apply N.leb_le. exact Ht.
Qed.

(** ** A batch that times out *)

(** While every status answered for the operation keeps it undone, the
    loop can only end by the deadline check. *)
Lemma wait_loop_stalls (ext : External) (c : Client) (fname : string) (start : N)
    (I : Operation → Prop) :
  (∀ log t o, (start ≤ t ≤ start + timeout + poll_interval)%N → I o →
              ∃ o', get_answer ext log t c o = inr o' ∧ done o' = false ∧ I o') →
  ∀ (fuel : nat) (operation : Operation) (w : World) r w',
    I operation → done operation = false → (start ≤ clock w)%N →
    wait_loop ext fuel c fname start operation w = Some (r, w') →
    r = Raise (HTTPException 408 ("Timeout importing " ++ fname)).
Proof.
  intros Hstall. induction fuel as [| n IH]; intros operation w r w' HI Hdone Hstart Hrun;
    [discriminate |].
  rewrite wait_loop_unfold, Hdone in Hrun.
  destruct (timeout <? clock w - start)%N eqn:Hlate; [congruence |].
  apply N.ltb_ge in Hlate. cbv zeta in Hrun.
  destruct (Hstall (calls w) (clock w + poll_interval)%N operation)
    as (o' & Hans & Hd & HI'); [unfold timeout, poll_interval in *; lia | exact HI |].
  rewrite Hans in Hrun.
  eapply (IH o' _ r w' HI' Hd); [| exact Hrun].
  cbn [clock set_calls set_clock]. lia.
Qed.

(** C2, as the code has it.  The files before [file] are all ingested;
    [file] is saved and submitted, and from then until
    [timeout + poll_interval] later every status answered for its
    operation says it is not done.  Then [upload_files] raises
    [HTTPException 408 "Timeout importing <filename>"]; the directory is
    the one left by the files before, with [file] written into it, so
    those files are still there; and the request log ends with the
    submission of [file] followed by status fetches only: nothing of
    [suffix] is written or submitted. *)
Theorem upload_timeout_aborts (ext : External) (prefix suffix : list UploadFile)
    (file : UploadFile) (w w0 w1 w2 : World) (c : Client) (s : Store)
    (operation : Operation) :
  let call := UploadToStore c (path_str (filename file)) (name s) (filename file) in
  let start := (clock w2 + latency ext (calls w2) (clock w2) call)%N in
  get_client ext w = (Ok c, w0) →
  get_file_search_store ext w0 = (Ok s, w1) →
  Forall (fun f => plain (filename f)) prefix →
  ingests ext c s prefix w1 w2 →
  plain (filename file) →
  upload_answer ext (calls w2) (clock w2) c (path_str (filename file)) (name s)
    (filename file) = inr operation →
  done operation = false →
  (∀ log t o, (start ≤ t ≤ start + timeout + poll_interval)%N →
              op_name o = op_name operation →
              ∃ o', get_answer ext log t c o = inr o' ∧ done o' = false ∧
                    op_name o' = op_name operation) →
  ∃ (w' : World) (polls : list Call),
    upload_files ext (prefix ++ file :: suffix)%list w =
      (Raise (HTTPException 408 ("Timeout importing " ++ filename file)), w') ∧
    uploads w' = <[filename file := {| content := body file; st_mtime := clock w2 |}]>
                   (uploads w2) ∧
    (∀ f, f ∈ prefix → is_Some (uploads w' !! filename f)) ∧
    calls w' = (polls ++ call :: calls w2)%list ∧
    forallb is_get polls = true.
Proof.
  intros call start Hgc Hgs Hplain Hing Hp Hsubmit Hdone Hstall.
  set (w3 := set_calls (call :: calls w2)
               (set_clock start
                  (set_uploads (<[filename file := {| content := body file;
                                                      st_mtime := clock w2 |}]>
                                  (uploads w2)) w2))).
  destruct (wait_for_import_waited ext c (filename file) operation w3)
    as [Hrun [_ _ _ Hu (polls & Hcalls & Hgets & _) _]].
  destruct (wait_for_import ext c (filename file) operation w3) as [r w'] eqn:Hwait.
  simpl in Hu, Hcalls.
  assert (Hr : r = Raise (HTTPException 408 ("Timeout importing " ++ filename file))).
  { apply (wait_loop_stalls ext c (filename file) (clock w3)
             (fun o => op_name o = op_name operation) Hstall
             max_polls operation w3 r w'); [reflexivity | exact Hdone | lia | exact Hrun]. }
  subst r.
  assert (Hfile : import_file ext c s file w2 =
                    (Raise (HTTPException 408 ("Timeout importing " ++ filename file)), w')).
  { rewrite (import_file_plain ext c s file w2 Hp). cbv zeta. rewrite Hsubmit.
    fold call. fold start. fold w3. rewrite Hwait. reflexivity. }
  exists w', polls. split; [| split; [| split; [| split]]].
  - rewrite (upload_files_runs ext _ w w0 w1 c s); [| | exact Hgc | exact Hgs].
    + rewrite (upload_loop_ingests ext c s prefix w1 w2 Hing). simpl.
      unfold bind. rewrite Hfile. reflexivity.
    + destruct prefix; discriminate.
  - exact Hu.
  - intros f Hf.
    destruct (ingests_uploads ext c s prefix w1 w2 Hing Hplain) as (Hdom & _ & _).
    apply elem_of_dom. rewrite Hu, dom_insert_L, Hdom.
    apply elem_of_union_r, elem_of_union_l, elem_of_list_to_set.
    apply list_elem_of_fmap. exists f. split; [reflexivity | exact Hf].
  - exact Hcalls.
  - exact Hgets.
Qed.

(** Three files are uploaded to a service that never finishes the second
    one. *)
Lemma upload_timeout_aborts_witness :
  let ext := stuck_on "b.txt" in
  let c := {| api_key := "k" |} in
  let s := {| name := "fileSearchStores/demo" |} in
  let w1 := (get_file_search_store ext (fresh (Some "k"))).2 in
  let w2 := (import_file ext c s a_txt w1).2 in
  let call := UploadToStore c "uploads/b.txt" "fileSearchStores/demo" "b.txt" in
  ∃ (w' : World) (polls : list Call),
    upload_files ext [a_txt; b_txt; c_txt] (fresh (Some "k")) =
      (Raise (HTTPException 408 "Timeout importing b.txt"), w') ∧
    uploads w' = <["b.txt" := {| content := [x62]; st_mtime := clock w2 |}]> (uploads w2) ∧
    (∀ f, f ∈ [a_txt] → is_Some (uploads w' !! filename f)) ∧
    calls w' = (polls ++ call :: calls w2)%list ∧
    forallb is_get polls = true.
Proof.
  intros ext c s w1 w2 call.
  apply (upload_timeout_aborts ext [a_txt] [c_txt] b_txt (fresh (Some "k"))
           (set_client (Some c) (fresh (Some "k"))) w1 w2 c s
           {| op_name := "b.txt"; done := false |}).
  - reflexivity.
  - vm_compute. reflexivity.
  - repeat constructor.
  - eapply ingests_cons; [vm_compute; reflexivity |].
    vm_compute. apply ingests_nil.
  - reflexivity.
  - reflexivity.
  - reflexivity.
  - intros log t o _ Hname.
    exists {| op_name := op_name o; done := negb (String.eqb (op_name o) "b.txt") |}.
    split; [reflexivity |]. cbn [op_name done] in *. rewrite Hname.
    split; reflexivity.
Defined.

(** C2, as stated, fails at the edge of the deadline.  On a service where
    an operation is complete from time 61 on, a lone file submitted at
    time 0 is not complete at any time up to the deadline of 60; the last
    status is fetched at time 62, says done, and the upload is answered
    with success instead of the timeout. *)
Lemma late_completion_is_accepted :
  (∀ log t c o o', (t ≤ 60)%N →
                   (upload_answer (steady 61) log t c "uploads/a.txt"
                      "fileSearchStores/demo" "a.txt" = inr o' ∨
                    get_answer (steady 61) log t c o = inr o') →
                   done o' = false) ∧
  (upload_files (steady 61) [a_txt] (fresh (Some "k"))).1 =
    Ok [("status", JStr "success");
        ("uploaded", JNum 1);
        ("message", JStr "Successfully uploaded 1 file(s)")] ∧
  clock (upload_files (steady 61) [a_txt] (fresh (Some "k"))).2 = 62%N.
Proof.
  split; [| split; vm_compute; reflexivity].
  intros log t c o o' Ht [[= <-] | [= <-]]; simpl; apply N.leb_gt; lia.
Qed.

(** ** Further facts about the model *)

(** Where some file names land. *)
Example resolve_examples :
  resolve "a.txt" = InDir "a.txt" ∧
  resolve "./a.txt" = InDir "a.txt" ∧
  resolve "" = Unwritable "[Errno 21] Is a directory: 'uploads'" ∧
  resolve "sub/a.txt" = Through "sub" "uploads/sub/a.txt" ∧
  resolve (String.concat "" (repeat "aaaaaaaaaaaaaaaa" 16)) =
    Unwritable ("[Errno 36] File name too long: 'uploads/"
                ++ String.concat "" (repeat "aaaaaaaaaaaaaaaa" 16) ++ "'") ∧
  path_str "//srv/a.txt" = "//srv/a.txt" ∧
  path_str "///srv//a.txt" = "/srv/a.txt" ∧
  resolve "../a.txt" = Elsewhere "uploads/../a.txt" ∧
  resolve "/tmp/a.txt" = Elsewhere "/tmp/a.txt".
Proof. repeat split. Qed.

(** The bound of 31 sleeps is reached: when the operation never
    completes and answers take no time, the loop fetches the status 31
    times and gives up at time 62. *)
Example wait_bound_is_reached :
  let r := wait_for_import (steady 1000) {| api_key := "k" |} "a.txt"
             {| op_name := "a.txt"; done := false |} (fresh (Some "k")) in
  r.1 = Raise (HTTPException 408 "Timeout importing a.txt") ∧
  length (calls r.2) = 31 ∧
  clock r.2 = 62%N.
Proof. vm_compute. repeat split. Qed.

(** A service that answers every submission and reports every
    operation done at its first status fetch ingests any batch of plain
    file names, from any state. *)
Lemma ingests_prompt (ext : External) (c : Client) (s : Store) :
  (∀ log t p n d, ∃ o, upload_answer ext log t c p n d = inr o) →
  (∀ log t o, ∃ o', get_answer ext log t c o = inr o' ∧ done o' = true) →
  ∀ (files : list UploadFile) (w : World),
    Forall (fun f => plain (filename f)) files →
    ∃ w2, ingests ext c s files w w2.
Proof.
  intros Hsubmit Hfetch. induction files as [| file rest IH]; intros w Hplain.
  - exists w. constructor.
  - apply Forall_cons in Hplain as [Hp Hplain].
    assert (Hfile : ∃ w1, import_file ext c s file w = (Ok tt, w1)).
    { rewrite (import_file_plain ext c s file w Hp). cbv zeta.
      destruct (Hsubmit (calls w) (clock w) (path_str (filename file)) (name s)
                  (filename file)) as [o ->].
      match goal with |- context [wait_for_import ext c ?f o ?w1] =>
        set (w3 := w1) end.
      assert (Hwait : ∃ final w4,
                 wait_for_import ext c (filename file) o w3 = (Ok final, w4)).
      { unfold wait_for_import, max_polls. rewrite wait_loop_unfold.
        destruct (done o); [eauto |].
        replace (timeout <? clock w3 - clock w3)%N with false
          by (symmetry; apply N.ltb_ge; unfold timeout; lia).
        cbv zeta.
        destruct (Hfetch (calls w3) (clock w3 + poll_interval)%N o) as (o' & -> & Hd).
        rewrite wait_loop_unfold, Hd. eauto. }
      destruct Hwait as (final & w4 & ->). eauto. }
    destruct Hfile as [w1 Hfile]. destruct (IH w1 Hplain) as [w2 Hrest].
    exists w2. econstructor; eassumption.
Qed.

(** ** Facts that hold of every handler *)

Lemma reraise_as_world (code : nat) {A} (m : M A) (w : World) :
  (reraise_as code m w).2 = (m w).2.
Proof.
  unfold reraise_as. destruct (m w) as [[a | [c d | msg]] w']; reflexivity.
Qed.

Lemma catch_all_world (code : nat) {A} (m : M A) (w : World) :
  (catch_all code m w).2 = (m w).2.
Proof.
  unfold catch_all. destruct (m w) as [[a | [c d | msg]] w']; reflexivity.
Qed.

(** A relation between the world before and after that is reflexive and
    transitive, and that each primitive step respects, is respected by
    every handler and by every sequence of requests. *)
Section FrameRule.

Variable ext : External.
Variable R : World → World → Prop.
Hypothesis R_refl : ∀ w, R w w.
Hypothesis R_trans : ∀ w1 w2 w3, R w1 w2 → R w2 w3 → R w1 w3.
Hypothesis R_get_client : ∀ w, R w (get_client ext w).2.
Hypothesis R_get_store : ∀ w, R w (get_file_search_store ext w).2.
Hypothesis R_set_api_key : ∀ key w, R w (set_api_key ext key w).2.
Hypothesis R_save : ∀ file w, R w (save_locally ext file w).2.
Hypothesis R_request :
  ∀ A call (answer : list Call → N → string + A) w, R w (request ext call answer w).2.
Hypothesis R_wait : ∀ c fname operation w, R w (wait_for_import ext c fname operation w).2.

Lemma frame_bind {A B} (m : M A) (k : A → M B) (w : World) :
  R w (m w).2 → (∀ a w1, R w1 (k a w1).2) → R w (bind m k w).2.
Proof.
  intros Hm Hk. unfold bind. destruct (m w) as [[a | e] w1]; simpl in *.
  - eapply R_trans; [exact Hm | apply Hk].
  - exact Hm.
Qed.

Lemma frame_import_file (c : Client) (s : Store) (file : UploadFile) (w : World) :
  R w (import_file ext c s file w).2.
Proof.
  unfold import_file. apply frame_bind; [apply R_save |].
  intros _ w1. apply frame_bind; [apply R_request |].
  intros operation w2. apply frame_bind; [apply R_wait |].
  intros _ w3. apply R_refl.
Qed.

Lemma frame_upload_loop (c : Client) (s : Store) :
  ∀ (files : list UploadFile) (n : nat) (w : World),
    R w (upload_loop ext c s files n w).2.
Proof.
  induction files as [| file rest IH]; intros n w; simpl.
  - apply R_refl.
  - apply frame_bind; [apply frame_import_file |]. intros _ w1. apply IH.
Qed.

Lemma frame_upload_files (files : list UploadFile) (w : World) :
  R w (upload_files ext files w).2.
Proof.
  destruct files as [| file rest]; [apply R_refl |].
  unfold upload_files. rewrite reraise_as_world.
  apply frame_bind; [apply R_get_client |].
  intros c w0. apply frame_bind; [apply R_get_store |].
  intros s w1. apply frame_bind; [apply frame_upload_loop |].
  intros n w2. apply R_refl.
Qed.

Lemma frame_chat (message : string) (w : World) : R w (chat ext message w).2.
Proof.
  unfold chat. rewrite reraise_as_world.
  apply frame_bind; [apply R_get_client |].
  intros c w0. apply frame_bind; [apply R_get_store |].
  intros s w1. apply frame_bind; [apply R_request |].
  intros text w2. apply R_refl.
Qed.

Lemma frame_handle (r : Request) (w : World) : R w (handle ext r w).
Proof.
  destruct r as [key | files | | message]; simpl.
  - apply R_set_api_key.
  - apply frame_upload_files.
  - apply R_refl.
  - apply frame_chat.
Qed.

Lemma frame_serve : ∀ (rs : list Request) (w : World), R w (serve ext rs w).
Proof.
  induction rs as [| r rs IH]; intros w; simpl.
  - apply R_refl.
  - eapply R_trans; [apply frame_handle | apply IH].
Qed.

End FrameRule.

(** *** What the primitive steps change *)

Lemma get_client_world (ext : External) (w : World) :
  (get_client ext w).2 = w ∨
  ∃ k, client w = None ∧ environ w = Some k ∧ k ≠ "" ∧ client_error ext k = None ∧
       get_client ext w = (Ok {| api_key := k |}, set_client (Some {| api_key := k |}) w).
Proof.
  destruct (client w) as [c |] eqn:Hc.
  { left. rewrite (get_client_cached ext w c Hc). reflexivity. }
  destruct (environ w) as [k |] eqn:He.
  - destruct (decide (k = "")) as [-> | Hk].
    { left. unfold get_client, bind, gets. simpl. rewrite Hc, He. reflexivity. }
    destruct (client_error ext k) as [msg |] eqn:Herr.
    + left. rewrite (get_client_refused ext w k msg Hc He Hk Herr). reflexivity.
    + right. exists k. repeat split; try assumption.
      apply get_client_builds; assumption.
  - left. unfold get_client, bind, gets. simpl. rewrite Hc, He. reflexivity.
Qed.

Lemma get_file_search_store_world (ext : External) (w : World) :
  let w0 := (get_client ext w).2 in
  (get_file_search_store ext w).2 = w ∨
  (get_file_search_store ext w).2 = w0 ∨
  ∃ c call,
    client w0 = Some c ∧ call = CreateStore c "demo-file-search-store" ∧
    let w1 := set_calls (call :: calls w0)
                (set_clock (clock w0 + latency ext (calls w0) (clock w0) call)%N w0) in
    (get_file_search_store ext w).2 = w1 ∨
    ∃ s, get_file_search_store ext w = (Ok s, set_file_search_store (Some s) w1).
Proof.
  intros w0. unfold get_file_search_store, bind, gets. simpl.
  destruct (file_search_store w) as [s |]; simpl; [left; reflexivity |].
  subst w0. destruct (get_client ext w) as [[c | e] w0] eqn:Hgc; simpl;
    [| right; left; reflexivity].
  right. right. exists c, (CreateStore c "demo-file-search-store").
  destruct (get_client_effect ext w w0 c Hgc) as (Hc & _).
  split; [exact Hc |]. split; [reflexivity |].
  unfold request. simpl.
  destruct (create_answer ext (calls w0) (clock w0) c) as [msg | s]; simpl.
  - left. reflexivity.
  - right. exists s. reflexivity.
Qed.

Lemma request_fields {A} (ext : External) (call : Call)
    (answer : list Call → N → string + A) (w : World) :
  environ (request ext call answer w).2 = environ w ∧
  client (request ext call answer w).2 = client w ∧
  file_search_store (request ext call answer w).2 = file_search_store w ∧
  uploads (request ext call answer w).2 = uploads w ∧
  calls (request ext call answer w).2 = call :: calls w.
Proof.
  unfold request. destruct (answer (calls w) (clock w)); simpl; repeat split.
Qed.

(** ** The globals stay coherent *)

Lemma coherent_fields (w w' : World) :
  environ w' = environ w → client w' = client w →
  file_search_store w' = file_search_store w →
  coherent w → coherent w'.
Proof.
  intros He Hc Hs [H1 H2]. unfold coherent. rewrite He, Hc, Hs. split; assumption.
Qed.

Lemma coherent_get_client (ext : External) (w : World) :
  coherent w → coherent (get_client ext w).2.
Proof.
  intros Hw. destruct (get_client_world ext w) as [-> | (k & Hc & He & Hk & _ & ->)];
    [exact Hw |].
  destruct Hw as [_ H2]. split; simpl.
  - intros c [= <-]. simpl. split; [exact He | exact Hk].
  - intros s Hs. destruct (H2 s Hs) as [c' Hc']. congruence.
Qed.

Lemma coherent_get_file_search_store (ext : External) (w : World) :
  coherent w → coherent (get_file_search_store ext w).2.
Proof.
  intros Hw. pose proof (coherent_get_client ext w Hw) as Hw0.
  destruct (get_file_search_store_world ext w)
    as [-> | [-> | (c & call & Hc & _ & [-> | (s & ->)])]];
    try assumption.
  destruct Hw0 as [H1 _]. split; simpl.
  - exact H1.
  - intros _ _. exists c. exact Hc.
Qed.

Lemma coherent_set_api_key (ext : External) (key : string) (w : World) :
  coherent (set_api_key ext key w).2.
Proof.
  destruct (set_api_key_resets ext key w) as (Hc & Hs & _).
  split; intros x Hx; congruence.
Qed.

Lemma coherent_serve (ext : External) (rs : list Request) (w : World) :
  coherent w → coherent (serve ext rs w).
Proof.
  apply (frame_serve ext (fun w w' => coherent w → coherent w')); clear rs w.
  - auto.
  - auto.
  - apply coherent_get_client.
  - apply coherent_get_file_search_store.
  - intros key w _. apply coherent_set_api_key.
  - intros file w. destruct (kept_save_locally ext file w) as [He Hc Hs _].
    apply coherent_fields; assumption.
  - intros A call answer w.
    destruct (request_fields ext call answer w) as (He & Hc & Hs & _).
    apply coherent_fields; assumption.
  - intros c fname operation w.
    destruct (kept_wait_for_import ext c fname operation w) as [He Hc Hs _].
    apply coherent_fields; assumption.
Qed.

Lemma coherent_fresh (key : option string) : coherent (fresh key).
Proof. split; intros x Hx; discriminate. Qed.

(** X1. In every state a process reaches from its start by answering
    requests, whatever the service does, a cached client was built from
    the key that is stored now, that key is not empty, and an index is
    cached only together with a client: no request is ever made with a
    client of a key that has since been replaced. *)
Theorem reachable_coherent (ext : External) (key : option string) (rs : list Request) :
  let w := serve ext rs (fresh key) in
  (∀ c, client w = Some c → environ w = Some (api_key c) ∧ api_key c ≠ "") ∧
  (∀ s, file_search_store w = Some s → ∃ c, client w = Some c).
Proof. apply (coherent_serve ext rs (fresh key)), coherent_fresh. Qed.

(** X2. In every such state, [get_client] raises the 400 "not set" error
    exactly when the stored key is absent or empty: a cached client never
    hides a missing key. *)
Theorem reachable_missing_key (ext : External) (key : option string) (rs : list Request) :
  let w := serve ext rs (fresh key) in
  (get_client ext w).1 = Raise (HTTPException 400 missing_key_detail) ↔
  (environ w = None ∨ environ w = Some "").
Proof.
  intros w. pose proof (coherent_serve ext rs (fresh key) (coherent_fresh key)) as [H1 _].
  fold w in H1. unfold get_client, bind, gets, genai_Client. simpl.
  destruct (client w) as [c |] eqn:Hc; simpl.
  { destruct (H1 c eq_refl) as [He Hk]. rewrite He.
    split; [discriminate | intros [? | [= ?]]; [discriminate | congruence]]. }
  destruct (environ w) as [[| a k] |]; simpl.
  - split; [right; reflexivity | reflexivity].
  - destruct (client_error ext (String a k)); simpl;
      (split; [discriminate | intros [? | ?]; discriminate]).
  - split; [left; reflexivity | reflexivity].
Qed.

(** ** Nothing is ever deleted *)

Lemma grows_uploads (w w' : World) : uploads w' = uploads w → grows w w'.
Proof. unfold grows. intros ->. reflexivity. Qed.

(** X3. No request removes a file from the upload directory: every name
    present before a sequence of requests is present after it. *)
Theorem uploads_never_shrink (ext : External) (rs : list Request) (w : World) :
  dom (uploads w) ⊆ dom (uploads (serve ext rs w)).
Proof.
  apply (frame_serve ext grows); clear rs w.
  - intros w. apply grows_uploads. reflexivity.
  - unfold grows. intros w1 w2 w3 H12 H23. etrans; eassumption.
  - intros w. apply grows_uploads.
    destruct (get_client_world ext w) as [-> | (k & _ & _ & _ & _ & ->)]; reflexivity.
  - intros w. apply grows_uploads.
    assert (H0 : uploads (get_client ext w).2 = uploads w).
    { destruct (get_client_world ext w) as [-> | (k & _ & _ & _ & _ & ->)]; reflexivity. }
    destruct (get_file_search_store_world ext w)
      as [-> | [-> | (c & call & _ & _ & [-> | (s & ->)])]];
      try reflexivity; try exact H0.
  - intros key w. apply grows_uploads.
    destruct (set_api_key_resets ext key w) as (_ & _ & Hu & _). exact Hu.
  - intros file w. unfold save_locally.
    destruct (resolve (filename file)) as [entry | path | msg | entry path];
      [| destruct (elsewhere_error ext path) | | destruct (uploads w !! entry)]; simpl;
      try (apply grows_uploads; reflexivity).
    unfold grows. simpl. rewrite dom_insert_L. apply union_subseteq_r.
  - intros A call answer w. apply grows_uploads.
    destruct (request_fields ext call answer w) as (_ & _ & _ & Hu & _). exact Hu.
  - intros c fname operation w. apply grows_uploads.
    destruct (wait_for_import_waited ext c fname operation w) as [_ [_ _ _ Hu _ _]].
    exact Hu.
Qed.

(** ** How the handlers can answer *)

Lemma get_client_outcome (ext : External) (w : World) :
  only_missing_key (get_client ext w).1.
Proof.
  unfold get_client, bind, gets, genai_Client. simpl.
  destruct (client w); simpl; [exact I |].
  destruct (environ w) as [[| a k] |]; simpl; try (split; reflexivity).
  destruct (client_error ext (String a k)); exact I.
Qed.

Lemma get_file_search_store_outcome (ext : External) (w : World) :
  only_missing_key (get_file_search_store ext w).1.
Proof.
  unfold get_file_search_store, bind, gets. simpl.
  destruct (file_search_store w); simpl; [exact I |].
  pose proof (get_client_outcome ext w) as Hc.
  destruct (get_client ext w) as [[c | e] w0]; simpl in *; [| exact Hc].
  unfold request. simpl.
  destruct (create_answer ext (calls w0) (clock w0) c); exact I.
Qed.

Lemma import_file_outcome (ext : External) (c : Client) (s : Store) (file : UploadFile)
    (w : World) :
  match (import_file ext c s file w).1 with
  | Raise (HTTPException code detail) =>
      code = 408 ∧ detail = "Timeout importing " ++ filename file
  | _ => True
  end.
Proof.
  unfold import_file, bind.
  assert (Hsave : ∀ e w1, save_locally ext file w = (Raise e, w1) → ∃ msg, e = Exception msg).
  { unfold save_locally. intros e w1.
    destruct (resolve (filename file)) as [entry | path | msg | entry path];
      [| destruct (elsewhere_error ext path) | | destruct (uploads w !! entry)];
      intros [= <- <-] || discriminate; eauto. }
  destruct (save_locally ext file w) as [[[] | e] w1] eqn:Hs.
  2:{ destruct (Hsave e w1 eq_refl) as [msg ->]. exact I. }
  unfold request. simpl.
  destruct (upload_answer ext (calls w1) (clock w1) c (path_str (filename file)) (name s)
              (filename file)) as [msg | operation]; simpl; [exact I |].
  match goal with |- context [wait_for_import ext c ?f ?o ?w2] =>
    destruct (wait_for_import_waited ext c f o w2) as [_ [_ _ _ _ _ Hout]];
    destruct (wait_for_import ext c f o w2) as [[final | [code detail | msg]] w3] end;
    simpl in *; try exact I.
  destruct Hout as (-> & -> & _). split; reflexivity.
Qed.

Lemma upload_loop_outcome (ext : External) (c : Client) (s : Store) :
  ∀ (files : list UploadFile) (n : nat) (w : World),
    match (upload_loop ext c s files n w).1 with
    | Ok m => m = n + length files
    | Raise (HTTPException code detail) =>
        code = 408 ∧ ∃ f, f ∈ files ∧ detail = "Timeout importing " ++ filename f
    | Raise (Exception _) => True
    end.
Proof.
  induction files as [| file rest IH]; intros n w; simpl.
  - lia.
  - unfold bind. pose proof (import_file_outcome ext c s file w) as Hf.
    destruct (import_file ext c s file w) as [[[] | [code detail | msg]] w1]; simpl in *.
    + specialize (IH (n + 1) w1).
      destruct (upload_loop ext c s rest (n + 1) w1) as [[m | [code detail | msg]] w2];
        simpl in *.
      * lia.
      * destruct IH as (-> & f & Hin & ->). split; [reflexivity |].
        exists f. split; [right; exact Hin | reflexivity].
      * exact I.
    + destruct Hf as (-> & ->). split; [reflexivity |].
      exists file. split; [left | reflexivity].
    + exact I.
Qed.

(** X4. Every way [upload_files] can answer.  It returns the success
    body only with [uploaded] equal to the number of files sent, so a
    batch is never reported as partly uploaded; otherwise it raises an
    [HTTPException] with status 400 (no files, or no key), 408 (naming a
    file of the batch) or 500; no other exception escapes. *)
Theorem upload_files_answers (ext : External) (files : list UploadFile) (w : World) :
  match (upload_files ext files w).1 with
  | Ok body =>
      files ≠ [] ∧
      body = [("status", JStr "success");
              ("uploaded", JNum (length files));
              ("message", JStr ("Successfully uploaded " ++ pretty (length files)
                                ++ " file(s)"))]
  | Raise (HTTPException code detail) =>
      (code = 400 ∧ detail = "No files provided" ∧ files = []) ∨
      (code = 400 ∧ detail = missing_key_detail) ∨
      (code = 408 ∧ ∃ f, f ∈ files ∧ detail = "Timeout importing " ++ filename f) ∨
      code = 500
  | Raise (Exception _) => False
  end.
Proof.
  destruct files as [| file rest]; [left; repeat split |].
  unfold upload_files, reraise_as, bind.
  pose proof (get_client_outcome ext w) as Hc.
  destruct (get_client ext w) as [[c | [code detail | msg]] w0]; cbn [fst] in *.
  2:{ right. left. exact Hc. }
  2:{ right. right. right. reflexivity. }
  pose proof (get_file_search_store_outcome ext w0) as Hs.
  destruct (get_file_search_store ext w0) as [[s | [code detail | msg]] w1];
    cbn [fst] in *.
  2:{ right. left. exact Hs. }
  2:{ right. right. right. reflexivity. }
  pose proof (upload_loop_outcome ext c s (file :: rest) 0 w1) as Hl.
  destruct (upload_loop ext c s (file :: rest) 0 w1) as [[m | [code detail | msg]] w2];
    cbn [fst] in *.
  - subst m. split; [discriminate | reflexivity].
  - right. right. left. exact Hl.
  - right. right. right. reflexivity.
Qed.

(** X5. How [set_api_key] and [chat] can fail.  [set_api_key] returns
    its success body or raises an [HTTPException] with status 400;
    [chat] returns a body or raises the 400 "not set" error or an
    [HTTPException] with status 500.  No exception other than
    [HTTPException] escapes either handler, whatever the library and the
    service do. *)
Theorem handlers_answers (ext : External) (w : World) :
  (∀ key,
     match (set_api_key ext key w).1 with
     | Ok body => body = [("status", JStr "success");
                          ("message", JStr "API key set successfully")]
     | Raise (HTTPException code _) => code = 400
     | Raise (Exception _) => False
     end) ∧
  (∀ message,
     match (chat ext message w).1 with
     | Ok _ => True
     | Raise (HTTPException code detail) =>
         (code = 400 ∧ detail = missing_key_detail) ∨ code = 500
     | Raise (Exception _) => False
     end).
Proof.
  split.
  - intros key. unfold set_api_key, catch_all, bind, modify, environ_set, genai_Client.
    simpl. destruct (has_nul key); simpl; [reflexivity |].
    destruct (client_error ext key); simpl; reflexivity.
  - intros message. unfold chat, reraise_as, bind.
    pose proof (get_client_outcome ext w) as Hc.
    destruct (get_client ext w) as [[c | [code detail | msg]] w0]; simpl in *.
    2:{ left. exact Hc. }
    2:{ right. reflexivity. }
    pose proof (get_file_search_store_outcome ext w0) as Hs.
    destruct (get_file_search_store ext w0) as [[s | [code detail | msg]] w1]; simpl in *.
    2:{ left. exact Hs. }
    2:{ right. reflexivity. }
    unfold request. simpl.
    destruct (generate_answer ext (calls w1) (clock w1) c "gemini-2.5-flash" message
                [name s]) as [msg | text]; simpl.
    + right. reflexivity.
    + exact I.
Qed.

(** ** Failures before and during a batch *)

(** X6. Without a cached client and without a key (absent or empty), an
    upload of any files and a question both raise the 400 "not set"
    error and leave the world as it was: no file is written and no
    request is sent. *)
Theorem no_key_no_effect (ext : External) (w : World) :
  client w = None →
  (environ w = None ∨ environ w = Some "") →
  (∀ files, files ≠ [] →
            upload_files ext files w = (Raise (HTTPException 400 missing_key_detail), w)) ∧
  (∀ message, chat ext message w = (Raise (HTTPException 400 missing_key_detail), w)).
Proof.
  intros Hc He.
  assert (Hgc : get_client ext w = (Raise (HTTPException 400 missing_key_detail), w)).
  { unfold get_client, bind, gets. simpl. rewrite Hc.
    destruct He as [-> | ->]; reflexivity. }
  split.
  - intros [| file rest] Hne; [congruence |].
    unfold upload_files, reraise_as, bind. rewrite Hgc. reflexivity.
  - intros message. unfold chat, reraise_as, bind. rewrite Hgc. reflexivity.
Qed.

Lemma no_key_no_effect_witness :
  (∀ files, files ≠ [] →
            upload_files (steady 0) files (fresh None)
              = (Raise (HTTPException 400 missing_key_detail), fresh None)) ∧
  (∀ message, chat (steady 0) message (fresh None)
                = (Raise (HTTPException 400 missing_key_detail), fresh None)).
Proof.
  apply (no_key_no_effect (steady 0) (fresh None)); [reflexivity | left; reflexivity].
Defined.

(** X7. When the creation of the index fails, an upload and a question
    both answer 500 with the service's message, having sent only the
    creation request; nothing is written to the upload directory, and no
    index is cached, so the next request that needs the index asks for
    its creation again. *)
Theorem failed_creation_is_not_cached (ext : External) (w w0 : World) (c : Client)
    (msg : string) :
  file_search_store w = None →
  get_client ext w = (Ok c, w0) →
  create_answer ext (calls w) (clock w) c = inl msg →
  ∃ w1,
    (∀ files, files ≠ [] →
              upload_files ext files w = (Raise (HTTPException 500 msg), w1)) ∧
    (∀ message, chat ext message w = (Raise (HTTPException 500 msg), w1)) ∧
    uploads w1 = uploads w ∧
    file_search_store w1 = None ∧
    calls w1 = CreateStore c "demo-file-search-store" :: calls w.
Proof.
  intros Hnone Hgc Hans.
  destruct (get_client_effect ext w w0 c Hgc) as (_ & _ & Hs0 & Hu0 & Hclock0 & Hcalls0).
  set (call := CreateStore c "demo-file-search-store").
  set (w1 := set_calls (call :: calls w0)
               (set_clock (clock w0 + latency ext (calls w0) (clock w0) call)%N w0)).
  assert (Hgs : get_file_search_store ext w0 = (Raise (Exception msg), w1)).
  { unfold get_file_search_store, bind, gets. simpl. rewrite Hs0, Hnone.
    assert (Hc0 : client w0 = Some c) by apply (get_client_effect ext w w0 c Hgc).
    rewrite (get_client_cached ext w0 c Hc0). unfold request. simpl.
    rewrite Hcalls0, Hclock0, Hans. subst w1 call. rewrite Hcalls0, Hclock0.
    reflexivity. }
  exists w1. split; [| split; [| split; [| split]]].
  - intros [| file rest] Hne; [congruence |].
    unfold upload_files, reraise_as, bind. rewrite Hgc, Hgs. reflexivity.
  - intros message. unfold chat, reraise_as, bind. rewrite Hgc, Hgs. reflexivity.
  - exact Hu0.
  - simpl. rewrite Hs0. exact Hnone.
  - simpl. rewrite Hcalls0. reflexivity.
Qed.

Lemma failed_creation_is_not_cached_witness :
  ∃ w1,
    (∀ files, files ≠ [] →
              upload_files down files (fresh (Some "k"))
                = (Raise (HTTPException 500 "503 UNAVAILABLE"), w1)) ∧
    (∀ message, chat down message (fresh (Some "k"))
                  = (Raise (HTTPException 500 "503 UNAVAILABLE"), w1)) ∧
    uploads w1 = uploads (fresh (Some "k")) ∧
    file_search_store w1 = None ∧
    calls w1 = [CreateStore {| api_key := "k" |} "demo-file-search-store"].
Proof.
  apply (failed_creation_is_not_cached down (fresh (Some "k"))
           (set_client (Some {| api_key := "k" |}) (fresh (Some "k")))
           {| api_key := "k" |} "503 UNAVAILABLE"); reflexivity.
Defined.

(** X8. When the service refuses the submission of a file, after the
    files before it were all ingested, [upload_files] answers 500 with
    the service's message.  The refused file has already been written and
    stays in the upload directory; the request log ends with its
    submission, so no status is fetched for it and nothing of the files
    after it is written or submitted. *)
Theorem refused_submission_leaves_file (ext : External) (prefix suffix : list UploadFile)
    (file : UploadFile) (w w0 w1 w2 : World) (c : Client) (s : Store) (msg : string) :
  let call := UploadToStore c (path_str (filename file)) (name s) (filename file) in
  get_client ext w = (Ok c, w0) →
  get_file_search_store ext w0 = (Ok s, w1) →
  ingests ext c s prefix w1 w2 →
  plain (filename file) →
  upload_answer ext (calls w2) (clock w2) c (path_str (filename file)) (name s)
    (filename file) = inl msg →
  ∃ w',
    upload_files ext (prefix ++ file :: suffix)%list w =
      (Raise (HTTPException 500 msg), w') ∧
    uploads w' = <[filename file := {| content := body file; st_mtime := clock w2 |}]>
                   (uploads w2) ∧
    calls w' = call :: calls w2.
Proof.
  intros call Hgc Hgs Hing Hp Hrefused.
  eexists. split; [| split].
  - rewrite (upload_files_runs ext _ w w0 w1 c s); [| | exact Hgc | exact Hgs].
    + rewrite (upload_loop_ingests ext c s prefix w1 w2 Hing). simpl.
      unfold bind. rewrite (import_file_plain ext c s file w2 Hp). cbv zeta.
      rewrite Hrefused. reflexivity.
    + destruct prefix; discriminate.
  - reflexivity.
  - reflexivity.
Qed.

Lemma refused_submission_leaves_file_witness :
  let ext := refuses "b.txt" in
  let c := {| api_key := "k" |} in
  let s := {| name := "fileSearchStores/demo" |} in
  let w1 := (get_file_search_store ext (fresh (Some "k"))).2 in
  let w2 := (import_file ext c s a_txt w1).2 in
  ∃ w',
    upload_files ext [a_txt; b_txt; c_txt] (fresh (Some "k")) =
      (Raise (HTTPException 500 "400 INVALID_ARGUMENT"), w') ∧
    uploads w' = <["b.txt" := {| content := [x62]; st_mtime := clock w2 |}]> (uploads w2) ∧
    calls w' = UploadToStore c "uploads/b.txt" "fileSearchStores/demo" "b.txt" :: calls w2.
Proof.
  intros ext c s w1 w2.
  apply (refused_submission_leaves_file ext [a_txt] [c_txt] b_txt (fresh (Some "k"))
           (set_client (Some c) (fresh (Some "k"))) w1 w2 c s "400 INVALID_ARGUMENT").
  - reflexivity.
  - vm_compute. reflexivity.
  - eapply ingests_cons; [vm_compute; reflexivity |].
    vm_compute. apply ingests_nil.
  - reflexivity.
  - reflexivity.
Defined.

(** ** What a batch submits and writes *)

Lemma submitted_cons (call : Call) (log : list Call) :
  submitted (call :: log) =
    (submitted log ++ match display_of call with Some d => [d] | None => [] end)%list.
Proof.
  unfold submitted. simpl. destruct (display_of call) as [d |].
  - apply reverse_cons.
  - rewrite app_nil_r. reflexivity.
Qed.

Lemma submitted_gets (polls log : list Call) :
  forallb is_get polls = true → submitted (polls ++ log)%list = submitted log.
Proof.
  induction polls as [| call polls IH]; intros H; [reflexivity |].
  simpl in H. apply andb_prop in H as [Hcall Hpolls].
  simpl. rewrite submitted_cons, (IH Hpolls).
  destruct call; try discriminate. simpl. apply app_nil_r.
Qed.

Lemma get_client_calls (ext : External) (w : World) :
  calls (get_client ext w).2 = calls w ∧ uploads (get_client ext w).2 = uploads w.
Proof.
  destruct (get_client_world ext w) as [-> | (k & _ & _ & _ & _ & ->)]; split; reflexivity.
Qed.

Lemma get_file_search_store_calls (ext : External) (w : World) :
  (calls (get_file_search_store ext w).2 = calls w ∨
   ∃ c, calls (get_file_search_store ext w).2
          = CreateStore c "demo-file-search-store" :: calls w) ∧
  uploads (get_file_search_store ext w).2 = uploads w.
Proof.
  destruct (get_client_calls ext w) as [Hl Hu].
  destruct (get_file_search_store_world ext w)
    as [-> | [-> | (c & call & _ & -> & [-> | (s & ->)])]]; simpl.
  - split; [left |]; reflexivity.
  - split; [left |]; assumption.
  - split; [right; exists c; rewrite Hl; reflexivity | exact Hu].
  - split; [right; exists c; rewrite Hl; reflexivity | exact Hu].
Qed.

Lemma import_file_split (ext : External) (c : Client) (s : Store) (file : UploadFile) :
  import_file ext c s file = (save_locally ext file ;;; submit_and_wait ext c s file).
Proof. reflexivity. Qed.

Lemma save_locally_cases (ext : External) (file : UploadFile) (w : World) :
  ((∃ msg, save_locally ext file w = (Raise (Exception msg), w)) ∧
   ¬ plain (filename file)) ∨
  (∃ w1, save_locally ext file w = (Ok tt, w1) ∧ calls w1 = calls w ∧
         (plain (filename file) →
          uploads w1 = <[filename file := {| content := body file;
                                             st_mtime := clock w |}]> (uploads w))).
Proof.
  unfold plain, save_locally.
  destruct (resolve (filename file)) as [entry | path | msg | entry path].
  - right. eexists. split; [reflexivity |]. split; [reflexivity |].
    intros [= ->]. reflexivity.
  - destruct (elsewhere_error ext path) as [msg |].
    + left. split; [eauto | congruence].
    + right. exists w. split; [reflexivity |]. split; [reflexivity | congruence].
  - left. split; [eauto | congruence].
  - destruct (uploads w !! entry); (left; split; [eauto | congruence]).
Qed.

Lemma submit_and_wait_calls (ext : External) (c : Client) (s : Store) (file : UploadFile)
    (w : World) :
  submitted (calls (submit_and_wait ext c s file w).2)
    = (submitted (calls w) ++ [filename file])%list ∧
  (length (calls (submit_and_wait ext c s file w).2) ≤ length (calls w) + 32)%nat ∧
  uploads (submit_and_wait ext c s file w).2 = uploads w.
Proof.
  unfold submit_and_wait, bind, request. simpl.
  destruct (upload_answer ext (calls w) (clock w) c (path_str (filename file))
              (name s) (filename file)) as [msg | operation]; simpl.
  { rewrite submitted_cons. simpl. repeat split. lia. }
  match goal with |- context [wait_for_import ext c ?f ?o ?w2] =>
    destruct (wait_for_import_waited ext c f o w2)
      as [_ [_ _ _ Hu (polls & Hcalls & Hgets & Hlen & _) _]];
    destruct (wait_for_import ext c f o w2) as [[final | e] w3] end;
    simpl in *; rewrite Hcalls, Hu, (submitted_gets _ _ Hgets), submitted_cons, length_app;
    simpl; (split; [reflexivity | split; [lia | reflexivity]]).
Qed.

(** One pass either stops at the local write, with nothing changed, or
    writes the file and submits it. *)
Lemma import_file_submitted (ext : External) (c : Client) (s : Store) (file : UploadFile)
    (w : World) :
  ((∃ msg, import_file ext c s file w = (Raise (Exception msg), w)) ∧
   ¬ plain (filename file)) ∨
  (submitted (calls (import_file ext c s file w).2)
     = (submitted (calls w) ++ [filename file])%list ∧
   (length (calls (import_file ext c s file w).2) ≤ length (calls w) + 32)%nat ∧
   (plain (filename file) →
    dom (uploads (import_file ext c s file w).2) = {[filename file]} ∪ dom (uploads w))).
Proof.
  rewrite import_file_split. unfold bind at 1 2 3 4.
  destruct (save_locally_cases ext file w) as [[[msg ->] Hnp] | (w1 & -> & Hl & Hu)].
  - left. split; [eauto | exact Hnp].
  - right. destruct (submit_and_wait_calls ext c s file w1) as (Hsub & Hlen & Hup).
    rewrite Hsub, Hup, Hl in *. split; [reflexivity |]. split; [exact Hlen |].
    intros Hp. rewrite (Hu Hp). apply dom_insert_L.
Qed.

Lemma upload_loop_submitted (ext : External) (c : Client) (s : Store) :
  ∀ (files : list UploadFile) (n : nat) (w : World),
    ∃ k, (k ≤ length files)%nat ∧
         submitted (calls (upload_loop ext c s files n w).2)
           = (submitted (calls w) ++ take k (filename <$> files))%list ∧
         (length (calls (upload_loop ext c s files n w).2)
            ≤ length (calls w) + 32 * length files)%nat ∧
         ((∃ m, (upload_loop ext c s files n w).1 = Ok m) → k = length files) ∧
         (Forall (fun f => plain (filename f)) files →
          dom (uploads (upload_loop ext c s files n w).2)
            = list_to_set (take k (filename <$> files)) ∪ dom (uploads w)).
Proof.
  induction files as [| file rest IH]; intros n w.
  - exists 0. simpl. rewrite app_nil_r. repeat split; try lia.
    intros _. apply set_eq. intros x. rewrite elem_of_union, elem_of_empty. tauto.
  - simpl. unfold bind.
    destruct (import_file_submitted ext c s file w)
      as [[[msg Hfail] Hnp] | (Hsub & Hlen & Hdom)].
    + rewrite Hfail. exists 0. simpl. rewrite app_nil_r.
      split; [lia |]. split; [reflexivity |]. split; [lia |].
      split; [intros [m Hm]; discriminate |].
      intros Hplain. apply Forall_cons in Hplain as [Hp _]. contradiction.
    + destruct (import_file ext c s file w) as [[[] | e] w1]; simpl in *.
      * destruct (IH (n + 1) w1) as (k & Hk & Hs & Hl & Hok & Hd).
        exists (S k). split; [lia |]. split; [| split; [| split]].
        -- rewrite Hs, Hsub, <- app_assoc. reflexivity.
        -- lia.
        -- intros Hm. rewrite (Hok Hm). reflexivity.
        -- intros Hplain. apply Forall_cons in Hplain as [Hp Hplain].
           rewrite (Hd Hplain), (Hdom Hp). simpl.
           apply set_eq. intros x. rewrite !elem_of_union. tauto.
      * exists 1. split; [lia |]. split; [| split; [| split]].
        -- rewrite Hsub. reflexivity.
        -- lia.
        -- intros [m Hm]. discriminate.
        -- intros Hplain. apply Forall_cons in Hplain as [Hp _].
           rewrite (Hdom Hp). simpl. rewrite ?take_0. simpl.
           apply set_eq. intros x. rewrite !elem_of_union, elem_of_empty. tauto.
Qed.

Lemma upload_files_submitted (ext : External) (files : list UploadFile) (w : World) :
  ∃ k, (k ≤ length files)%nat ∧
       submitted (calls (upload_files ext files w).2)
         = (submitted (calls w) ++ take k (filename <$> files))%list ∧
       (length (calls (upload_files ext files w).2)
          ≤ length (calls w) + 1 + 32 * length files)%nat ∧
       ((∃ body, (upload_files ext files w).1 = Ok body) → k = length files) ∧
       (Forall (fun f => plain (filename f)) files →
        dom (uploads (upload_files ext files w).2)
          = list_to_set (take k (filename <$> files)) ∪ dom (uploads w)).
Proof.
  assert (Hzero : ∀ w', submitted (calls w') = submitted (calls w) →
                        (length (calls w') ≤ length (calls w) + 1)%nat →
                        uploads w' = uploads w →
            (0 ≤ length files)%nat ∧
            submitted (calls w') = (submitted (calls w) ++ take 0 (filename <$> files))%list ∧
            (length (calls w') ≤ length (calls w) + 1 + 32 * length files)%nat ∧
            (Forall (fun f => plain (filename f)) files →
             dom (uploads w') = list_to_set (take 0 (filename <$> files)) ∪ dom (uploads w))).
  { intros w' Hs Hl Hu. rewrite take_0, app_nil_r, Hu. repeat split; try lia; try exact Hs.
    intros _. apply set_eq. intros x. simpl. rewrite elem_of_union, elem_of_empty. tauto. }
  destruct files as [| file rest].
  { exists 0. destruct (Hzero w eq_refl) as (H1 & H2 & H3 & H4); [lia | reflexivity |].
    cbn [upload_files raise fst snd]. split; [lia |]. split; [exact H2 |]. split; [exact H3 |].
    split; [intros [body Hb]; discriminate | exact H4]. }
  set (files := file :: rest) in *.
  destruct (get_client_calls ext w) as [Hl0 Hu0].
  destruct (get_client ext w) as [[c | e] w0] eqn:Hgc; simpl in Hl0, Hu0.
  2:{ exists 0.
      assert (Hw : (upload_files ext files w) =
                   (match e with Exception msg => Raise (HTTPException 500 msg) | _ => Raise e end, w0)).
      { unfold upload_files, files, reraise_as, bind. rewrite Hgc. destruct e; reflexivity. }
      rewrite Hw. cbn [fst snd].
      destruct (Hzero w0) as (H1 & H2 & H3 & H4); [congruence | rewrite Hl0; lia | exact Hu0 |].
      split; [lia |]. split; [exact H2 |]. split; [exact H3 |].
      split; [intros [body Hb]; destruct e; discriminate | exact H4]. }
  destruct (get_file_search_store_calls ext w0) as [Hl1 Hu1].
  destruct (get_file_search_store ext w0) as [[s | e] w1] eqn:Hgs; simpl in Hl1, Hu1.
  2:{ exists 0.
      assert (Hw : (upload_files ext files w) =
                   (match e with Exception msg => Raise (HTTPException 500 msg) | _ => Raise e end, w1)).
      { unfold upload_files, files, reraise_as, bind. rewrite Hgc, Hgs.
        destruct e; reflexivity. }
      rewrite Hw. cbn [fst snd].
      destruct (Hzero w1) as (H1 & H2 & H3 & H4).
      { destruct Hl1 as [-> | [c' ->]]; [| rewrite submitted_cons; simpl; rewrite app_nil_r];
          congruence. }
      { destruct Hl1 as [-> | [c' ->]]; simpl; rewrite Hl0; lia. }
      { congruence. }
      split; [lia |]. split; [exact H2 |]. split; [exact H3 |].
      split; [intros [body Hb]; destruct e; discriminate | exact H4]. }
  assert (Hsub1 : submitted (calls w1) = submitted (calls w)).
  { destruct Hl1 as [-> | [c' ->]]; [| rewrite submitted_cons; simpl; rewrite app_nil_r];
      congruence. }
  assert (Hlen1 : (length (calls w1) ≤ length (calls w) + 1)%nat).
  { destruct Hl1 as [-> | [c' ->]]; simpl; rewrite Hl0; lia. }
  destruct (upload_loop_submitted ext c s files 0 w1) as (k & Hk & Hs & Hl & Hok & Hd).
  exists k.
  rewrite (upload_files_world ext files w w0 w1 c s Hgc Hgs) by discriminate.
  rewrite (upload_files_runs ext files w w0 w1 c s) by (discriminate || assumption).
  split; [exact Hk |]. split; [rewrite Hs, Hsub1; reflexivity |].
  split; [lia |]. split.
  - intros [body Hb]. apply Hok.
    destruct (upload_loop ext c s files 0 w1) as [[m | [code d | msg]] w2];
      try discriminate. eauto.
  - intros Hplain. rewrite (Hd Hplain), Hu1, Hu0. reflexivity.
Qed.

(** X9. The submissions of a batch follow the batch: the display names
    of the submissions that [upload_files] adds to the request log are,
    in order, the names of the first [k] files sent, for some [k]; and
    [k] is the whole batch whenever the handler returns success.  No
    file is submitted twice, out of order, or after a file that was not
    submitted. *)
Theorem submissions_follow_batch (ext : External) (files : list UploadFile) (w : World) :
  ∃ k, (k ≤ length files)%nat ∧
       submitted (calls (upload_files ext files w).2)
         = (submitted (calls w) ++ take k (filename <$> files))%list ∧
       ((∃ body, (upload_files ext files w).1 = Ok body) → k = length files).
Proof.
  destruct (upload_files_submitted ext files w) as (k & Hk & Hs & _ & Hok & _).
  exists k. repeat split; assumption.
Qed.

(** X10. For a batch of plain file names, the files the batch leaves in
    the upload directory are exactly the files it submitted: whatever
    the outcome, the names added to the directory are those of the first
    [k] files, and these are the submissions added to the log. *)
Theorem written_files_were_submitted (ext : External) (files : list UploadFile)
    (w : World) :
  Forall (fun f => plain (filename f)) files →
  ∃ k, (k ≤ length files)%nat ∧
       dom (uploads (upload_files ext files w).2)
         = list_to_set (take k (filename <$> files)) ∪ dom (uploads w) ∧
       submitted (calls (upload_files ext files w).2)
         = (submitted (calls w) ++ take k (filename <$> files))%list.
Proof.
  intros Hplain.
  destruct (upload_files_submitted ext files w) as (k & Hk & Hs & _ & _ & Hd).
  exists k. repeat split; auto.
Qed.

(** X11. An upload of [N] files sends at most [1 + 32 * N] requests to
    the service: one index creation, and for each file one submission
    and at most 31 status fetches. *)
Theorem upload_request_budget (ext : External) (files : list UploadFile) (w : World) :
  (length (calls (upload_files ext files w).2)
     ≤ length (calls w) + 1 + 32 * length files)%nat.
Proof.
  destruct (upload_files_submitted ext files w) as (k & _ & _ & Hl & _). exact Hl.
Qed.

Lemma written_files_were_submitted_witness :
  ∃ k, (k ≤ 3)%nat ∧
       dom (uploads (upload_files (stuck_on "b.txt") [a_txt; b_txt; c_txt]
                       (fresh (Some "k"))).2)
         = list_to_set (take k ["a.txt"; "b.txt"; "c.txt"]) ∪ dom (uploads (fresh (Some "k"))) ∧
       submitted (calls (upload_files (stuck_on "b.txt") [a_txt; b_txt; c_txt]
                           (fresh (Some "k"))).2)
         = (submitted (calls (fresh (Some "k"))) ++ take k ["a.txt"; "b.txt"; "c.txt"])%list.
Proof.
  apply (written_files_were_submitted (stuck_on "b.txt") [a_txt; b_txt; c_txt]
           (fresh (Some "k"))).
  repeat constructor.
Defined.

(** ** After a request that succeeded *)

Lemma get_file_search_store_keeps_client (ext : External) (w0 w1 : World) (c : Client)
    (s : Store) :
  client w0 = Some c →
  get_file_search_store ext w0 = (Ok s, w1) →
  client w1 = Some c ∧ file_search_store w1 = Some s.
Proof.
  intros Hc Hgs. destruct (file_search_store w0) as [s' |] eqn:Hs0.
  - rewrite (get_file_search_store_cached ext w0 s' Hs0) in Hgs.
    injection Hgs as <- <-. split; assumption.
  - rewrite (get_file_search_store_creates ext w0 c Hc Hs0) in Hgs. cbv zeta in Hgs.
    destruct (create_answer ext (calls w0) (clock w0) c); [discriminate |].
    injection Hgs as <- <-. split; [exact Hc | reflexivity].
Qed.

(** X12. Once a question or an upload has been answered with success,
    the client and the index are both cached; they stay cached through
    any later uploads, listings and questions, failed ones included, as
    long as no key is set, and every question asked after such requests
    costs exactly one request: the generation call, made with that client
    and restricted to that index. *)
Theorem success_leaves_caches (ext : External) (w w' : World) :
  ((∃ files body, upload_files ext files w = (Ok body, w')) ∨
   (∃ message body, chat ext message w = (Ok body, w'))) →
  ∃ c s,
    client w' = Some c ∧
    file_search_store w' = Some s ∧
    ∀ (rs : list Request) (message : string),
      forallb (fun r => negb (is_set_api_key r)) rs = true →
      client (serve ext rs w') = Some c ∧
      file_search_store (serve ext rs w') = Some s ∧
      calls (chat ext message (serve ext rs w')).2
        = GenerateContent c chat_model message [name s] :: calls (serve ext rs w').
Proof.
  intros Hok.
  assert (Hcached : ∃ c s, client w' = Some c ∧ file_search_store w' = Some s).
  { destruct Hok as [(files & body & Hb) | (message & body & Hb)].
    - destruct files as [| file rest]; [discriminate |].
      destruct (get_client ext w) as [[c | e] w0] eqn:Hgc.
      2:{ unfold upload_files, reraise_as, bind in Hb. rewrite Hgc in Hb.
          destruct e; discriminate. }
      destruct (get_file_search_store ext w0) as [[s | e] w1] eqn:Hgs.
      2:{ unfold upload_files, reraise_as, bind in Hb. rewrite Hgc, Hgs in Hb.
          destruct e; discriminate. }
      destruct (get_client_effect ext w w0 c Hgc) as (Hc0 & _).
      destruct (get_file_search_store_keeps_client ext w0 w1 c s Hc0 Hgs) as [Hc1 Hs1].
      pose proof (upload_files_world ext (file :: rest) w w0 w1 c s Hgc Hgs) as Hw.
      rewrite Hb in Hw. cbn [snd] in Hw. specialize (Hw ltac:(discriminate)).
      destruct (kept_upload_loop ext c s (file :: rest) 0 w1) as [_ Hc Hs _].
      exists c, s. rewrite Hw. split; congruence.
    - destruct (get_client ext w) as [[c | e] w0] eqn:Hgc.
      2:{ unfold chat, reraise_as, bind in Hb. rewrite Hgc in Hb.
          destruct e; discriminate. }
      destruct (get_file_search_store ext w0) as [[s | e] w1] eqn:Hgs.
      2:{ unfold chat, reraise_as, bind in Hb. rewrite Hgc, Hgs in Hb.
          destruct e; discriminate. }
      destruct (get_client_effect ext w w0 c Hgc) as (Hc0 & _).
      destruct (get_file_search_store_keeps_client ext w0 w1 c s Hc0 Hgs) as [Hc1 Hs1].
      rewrite (chat_sends ext message w w0 w1 c s Hgc Hgs) in Hb.
      injection Hb as _ <-. exists c, s. split; assumption. }
  destruct Hcached as (c & s & Hc & Hs). exists c, s.
  split; [exact Hc |]. split; [exact Hs |]. intros rs message Hrs.
  destruct (kept_serve ext c s rs w' Hc Hs Hrs) as [_ Hc' Hs' _].
  rewrite Hc in Hc'. rewrite Hs in Hs'.
  split; [exact Hc' |]. split; [exact Hs' |].
  rewrite (chat_sends ext message _ _ _ c s
             (get_client_cached ext _ c Hc') (get_file_search_store_cached ext _ s Hs')).
  reflexivity.
Qed.

Lemma success_leaves_caches_witness :
  let w' := (upload_files (steady 0) [a_txt] (fresh (Some "k"))).2 in
  ∃ c s,
    client w' = Some c ∧
    file_search_store w' = Some s ∧
    ∀ (rs : list Request) (message : string),
      forallb (fun r => negb (is_set_api_key r)) rs = true →
      client (serve (steady 0) rs w') = Some c ∧
      file_search_store (serve (steady 0) rs w') = Some s ∧
      calls (chat (steady 0) message (serve (steady 0) rs w')).2
        = GenerateContent c chat_model message [name s] :: calls (serve (steady 0) rs w').
Proof.
  intros w'.
  apply (success_leaves_caches (steady 0) (fresh (Some "k")) w').
  left. exists [a_txt]. eexists. vm_compute. reflexivity.
Defined.

(** ** Setting a key, again *)

(** X14. [set_api_key] succeeds exactly when the key can be stored (it
    holds no NUL byte) and [genai.Client] accepts it.  Either way it
    sends nothing to the service, leaves the upload directory and the
    clock alone, and caches no client, not even the one it has just
    built: the next request builds its own. *)
Theorem set_api_key_is_local (ext : External) (key : string) (w : World) :
  ((∃ body, (set_api_key ext key w).1 = Ok body) ↔
   (has_nul key = false ∧ client_error ext key = None)) ∧
  client (set_api_key ext key w).2 = None ∧
  file_search_store (set_api_key ext key w).2 = None ∧
  environ (set_api_key ext key w).2 = (if has_nul key then environ w else Some key) ∧
  uploads (set_api_key ext key w).2 = uploads w ∧
  calls (set_api_key ext key w).2 = calls w ∧
  clock (set_api_key ext key w).2 = clock w.
Proof.
  split.
  - unfold set_api_key, catch_all, bind, modify, environ_set, genai_Client. simpl.
    destruct (has_nul key); simpl.
    { split; [intros [body Hb]; discriminate | intros [? _]; discriminate]. }
    destruct (client_error ext key); simpl.
    + split; [intros [body Hb]; discriminate | intros [_ ?]; discriminate].
    + split; [intros _; split; reflexivity | intros _; eexists; reflexivity].
  - rewrite set_api_key_world. simpl. destruct (has_nul key); repeat split.
Qed.

(** ** Only an upload writes *)

(** X13. Setting a key, listing and asking never touch the upload
    directory: after any request other than an upload the directory is
    what it was, and so [list_files] returns what it returned before. *)
Theorem only_upload_writes (ext : External) (r : Request) (w : World) :
  (∀ files, r ≠ PostUpload files) →
  uploads (handle ext r w) = uploads w ∧
  (list_files ext (handle ext r w)).1 = (list_files ext w).1.
Proof.
  intros Hr.
  assert (Hu : uploads (handle ext r w) = uploads w).
  { destruct r as [key | files | | message]; simpl.
    - apply (set_api_key_resets ext key w).
    - destruct (Hr files). reflexivity.
    - reflexivity.
    - apply (frame_chat ext (fun w w' => uploads w' = uploads w)).
      + reflexivity.
      + intros w1 w2 w3 H12 H23. congruence.
      + intros w1. apply (get_client_calls ext w1).
      + intros w1. apply (get_file_search_store_calls ext w1).
      + intros A call answer w1. apply (request_fields ext call answer w1). }
  split; [exact Hu |]. rewrite !list_files_lists. simpl. rewrite Hu. reflexivity.
Qed.

Lemma only_upload_writes_witness :
  let w := (upload_files (steady 0) [a_txt] (fresh (Some "k"))).2 in
  uploads (handle (steady 0) (PostSetApiKey "other") w) = uploads w ∧
  (list_files (steady 0) (handle (steady 0) (PostSetApiKey "other") w)).1
    = (list_files (steady 0) w).1.
Proof.
  intros w. apply (only_upload_writes (steady 0) (PostSetApiKey "other") w).
  intros files. discriminate.
Defined.

(** ** How long a wait can last *)

Lemma wait_loop_clock (ext : External) (c : Client) (fname : string) (start L : N) :
  (∀ log t call, (latency ext log t call ≤ L)%N) →
  ∀ (fuel : nat) (operation : Operation) (w : World) r w',
    (clock w ≤ start + timeout + poll_interval + L)%N →
    wait_loop ext fuel c fname start operation w = Some (r, w') →
    (clock w' ≤ start + timeout + poll_interval + L)%N.
Proof.
  intros Hlat. induction fuel as [| n IH]; intros operation w r w' Hw Hrun;
    [discriminate |].
  rewrite wait_loop_unfold in Hrun.
  destruct (done operation); [injection Hrun as _ <-; exact Hw |].
  destruct (timeout <? clock w - start)%N eqn:Hlate; [injection Hrun as _ <-; exact Hw |].
  apply N.ltb_ge in Hlate. cbv zeta in Hrun.
  set (call := OperationsGet c operation) in *.
  pose proof (Hlat (calls w) (clock w + poll_interval)%N call) as Hl.
  assert (Hnext : (clock w + poll_interval + latency ext (calls w) (clock w + poll_interval) call
                   ≤ start + timeout + poll_interval + L)%N) by lia.
  destruct (get_answer ext (calls w) (clock w + poll_interval)%N c operation)
    as [msg | operation'].
  - injection Hrun as _ <-. exact Hnext.
  - eapply (IH operation' _ r w'); [| exact Hrun]. exact Hnext.
Qed.

(** X15. When every request to the service is answered within [L] time
    units, the wait for one file is over no later than
    [timeout + poll_interval + L], that is [62 + L], time units after it
    started, however it ends. *)
Theorem wait_lasts_at_most (ext : External) (c : Client) (fname : string)
    (operation : Operation) (w : World) (L : N) :
  (∀ log t call, (latency ext log t call ≤ L)%N) →
  (clock (wait_for_import ext c fname operation w).2
     ≤ clock w + timeout + poll_interval + L)%N.
Proof.
  intros Hlat. destruct (wait_for_import_waited ext c fname operation w) as [Hrun _].
  destruct (wait_for_import ext c fname operation w) as [r w'].
  apply (wait_loop_clock ext c fname (clock w) L Hlat max_polls operation w r w');
    [unfold timeout, poll_interval; lia | exact Hrun].
Qed.

Lemma wait_lasts_at_most_witness :
  (clock (wait_for_import (steady 1000) {| api_key := "k" |} "a.txt"
            {| op_name := "a.txt"; done := false |} (fresh (Some "k"))).2
     ≤ clock (fresh (Some "k")) + timeout + poll_interval + 0)%N.
Proof.
  apply (wait_lasts_at_most (steady 1000) {| api_key := "k" |} "a.txt"
           {| op_name := "a.txt"; done := false |} (fresh (Some "k")) 0).
  intros log t call. simpl. lia.
Defined.

(** ** Uploading under a name already in the directory *)

(** The passes for files with other names leave an entry as it is,
    whatever becomes of them. *)
Lemma upload_loop_other (ext : External) (c : Client) (s : Store) (n : string) :
  ∀ (files : list UploadFile) (k : nat) (w : World),
    Forall (fun f => plain (filename f)) files →
    n ∉ (filename <$> files) →
    uploads (upload_loop ext c s files k w).2 !! n = uploads w !! n.
Proof.
  induction files as [| file rest IH]; intros k w Hplain Hn; [reflexivity |].
  apply Forall_cons in Hplain as [Hp Hplain].
  rewrite fmap_cons in Hn. apply not_elem_of_cons in Hn as [Hne Hn].
  pose proof (import_file_uploads ext c s file w Hp) as Hu.
  simpl. unfold bind. destruct (import_file ext c s file w) as [[[] | e] w1];
    cbn [snd] in *.
  - rewrite (IH (k + 1) w1 Hplain Hn), Hu. apply lookup_insert_ne. congruence.
  - rewrite Hu. apply lookup_insert_ne. congruence.
Qed.

(** C8. A file [file] of a batch has the name of a file already in the
    upload directory; the files before it in the batch are ingested, so
    that its turn comes, and no file after it has its name.  Then,
    whatever the ingestion of [file] and of the files after it does, the
    directory afterwards holds the new bytes under that name, and every
    entry whose name is not in the batch is as before.  [list_files] then
    has an entry for that name, and every entry it has for that name
    shows the byte length of the new content; when every name of the
    batch was in the directory already, it has as many entries as
    before. *)
Theorem reupload_overwrites (ext : External) (prefix suffix : list UploadFile)
    (file : UploadFile) (w w0 w1 w2 : World) (c : Client) (s : Store) (old : LocalFile) :
  let files := (prefix ++ file :: suffix)%list in
  get_client ext w = (Ok c, w0) →
  get_file_search_store ext w0 = (Ok s, w1) →
  Forall (fun f => plain (filename f)) files →
  ingests ext c s prefix w1 w2 →
  filename file ∉ (filename <$> suffix) →
  uploads w !! filename file = Some old →
  let w' := (upload_files ext files w).2 in
  uploads w' !! filename file = Some {| content := body file; st_mtime := clock w2 |} ∧
  (∀ n, n ∉ (filename <$> files) → uploads w' !! n = uploads w !! n) ∧
  ∃ listing,
    list_files ext w' = (Ok listing, w') ∧
    listed listing (filename file) (length (body file)) ∧
    (∀ k, listed listing (filename file) k → k = length (body file)) ∧
    ((∀ f, f ∈ files → is_Some (uploads w !! filename f)) →
     length listing = size (uploads w)).
Proof.
  intros files Hgc Hgs Hplain Hing Hlast Hold w'.
  destruct (get_client_effect ext w w0 c Hgc) as (_ & _ & _ & Hu0 & _).
  destruct (get_file_search_store_effect ext w0 w1 s Hgs) as (_ & Hu1 & _).
  pose proof Hplain as Hplain'. unfold files in Hplain'.
  apply Forall_app in Hplain' as [Hpre Hrest].
  apply Forall_cons in Hrest as [Hp Hsuf].
  destruct (ingests_uploads ext c s prefix w1 w2 Hing Hpre) as (_ & Hother & _).
  assert (Hne : files ≠ []) by (unfold files; destruct prefix; discriminate).
  assert (Hw' : w' = (upload_loop ext c s (file :: suffix) (0 + length prefix) w2).2).
  { subst w'. rewrite (upload_files_world ext files w w0 w1 c s Hgc Hgs Hne).
    unfold files. rewrite (upload_loop_ingests ext c s prefix w1 w2 Hing). reflexivity. }
  pose proof (import_file_uploads ext c s file w2 Hp) as Hu3.
  assert (Hrest : ∀ n, n ∉ (filename <$> suffix) →
                       uploads w' !! n = uploads (import_file ext c s file w2).2 !! n).
  { intros n Hn. rewrite Hw'. simpl. unfold bind.
    destruct (import_file ext c s file w2) as [[[] | e] w3]; cbn [snd]; [| reflexivity].
    apply upload_loop_other; assumption. }
  assert (Hnew : uploads w' !! filename file
                 = Some {| content := body file; st_mtime := clock w2 |}).
  { rewrite (Hrest _ Hlast), Hu3. apply lookup_insert_eq. }
  split; [exact Hnew |]. split.
  { intros n Hn. unfold files in Hn. rewrite fmap_app, fmap_cons in Hn.
    apply not_elem_of_app in Hn as [Hn1 Hn2].
    apply not_elem_of_cons in Hn2 as [Hn2 Hn3].
    rewrite (Hrest n Hn3), Hu3, lookup_insert_ne by congruence.
    rewrite (Hother n Hn1), Hu1, Hu0. reflexivity. }
  exists (file_info ext <$> map_to_list (uploads w')).
  split; [apply list_files_lists |]. split; [| split].
  - apply listed_lookup. eexists. split; [exact Hnew | reflexivity].
  - intros k Hk. apply listed_lookup in Hk as (lf & Hlf & ->).
    rewrite Hnew in Hlf. injection Hlf as <-. reflexivity.
  - intros Hall. rewrite listing_length, <- (size_dom (uploads w')),
      <- (size_dom (uploads w)). f_equal.
    destruct (upload_files_submitted ext files w) as (k & _ & _ & _ & _ & Hdom).
    fold w' in Hdom. rewrite (Hdom Hplain).
    apply set_eq. intros x. rewrite elem_of_union, elem_of_list_to_set. split; [| tauto].
    intros [Hx | Hx]; [| exact Hx].
    apply (subseteq_take k (filename <$> files)) in Hx.
    apply list_elem_of_fmap in Hx as (f & -> & Hf).
    apply elem_of_dom. apply Hall. exact Hf.
Qed.

(** Four files are in the directory; three of them are uploaded again in
    one batch, ["a.txt"] in the middle with three new bytes. *)
Lemma reupload_overwrites_witness :
  let ext := steady 0 in
  let c := {| api_key := "k" |} in
  let s := {| name := "fileSearchStores/demo" |} in
  let a2 := {| filename := "a.txt"; body := [x63; x64; x65] |} in
  let files := [b_txt; a2; c_txt] in
  let w := (upload_files ext [a_txt; b_txt; c_txt; {| filename := "d.txt"; body := [] |}]
              (fresh (Some "k"))).2 in
  let w2 := (import_file ext c s b_txt w).2 in
  let w' := (upload_files ext files w).2 in
  uploads w' !! "a.txt" = Some {| content := [x63; x64; x65]; st_mtime := clock w2 |} ∧
  (∀ n, n ∉ (filename <$> files) → uploads w' !! n = uploads w !! n) ∧
  ∃ listing,
    list_files ext w' = (Ok listing, w') ∧
    listed listing "a.txt" 3 ∧
    (∀ k, listed listing "a.txt" k → k = 3) ∧
    ((∀ f, f ∈ files → is_Some (uploads w !! filename f)) →
     length listing = size (uploads w)).
Proof.
  intros ext c s a2 files w w2 w'.
  eapply (reupload_overwrites ext [b_txt] [c_txt] a2 w w w w2 c s).
  - vm_compute. reflexivity.
  - vm_compute. reflexivity.
  - repeat constructor.
  - eapply ingests_cons; [vm_compute; reflexivity |].
    vm_compute. apply ingests_nil.
  - apply (bool_decide_unpack _). vm_compute. reflexivity.
  - vm_compute. reflexivity.
Defined.
